(** * CallSession (src/lib/stats/httpRequest.ts): a shallow embedding

    The file embeds the [CallSession] class of the Plivo browser SDK and the
    [fetchIPAddress] helper, and settles the properties stated about them.

    Modelling conventions.
    - A JavaScript [number] is an integer ([Z]) or [NaN].  The numbers the
      class handles are millisecond timestamps and their differences, which
      are integers far below 2^53, where double arithmetic is exact.
    - A JavaScript object used as a dictionary ([signallingInfo],
      [mediaConnectionInfo], [extraHeaders]) is a [gmap] keyed by strings;
      object spread [{...a, ...b}] is the union that prefers [b].
    - [null]/[undefined] object references are [option]s, and a property
      read through a null reference raises [TypeError].
    - Calls into collaborators that live outside this file of the SDK
      (logger, metrics, audio helpers, stats engine, ...) are recorded, in
      order and with their arguments, in a trace of [effect]s.
    - A [setTimeout] callback is a [task]; a task, or the reaction on a
      promise, runs in a step of its own when the host fires or settles it. *)

From stdpp Require Import base option list strings pretty gmap fin_maps.
From Stdlib Require Import ZArith Lia.

Local Open Scope Z_scope.

(** ** JavaScript values *)

Module JS.

Inductive number : Type :=
| Num (z : Z)
| NaN.

(** [ToBoolean] on a number: [0] and [NaN] are falsy. *)
Definition number_truthy (n : number) : bool :=
  match n with
  | Num z => negb (Z.eqb z 0)
  | NaN => false
  end.

(** Binary [-] on numbers. *)
Definition sub (a b : number) : number :=
  match a, b with
  | Num x, Num y => Num (x - y)
  | _, _ => NaN
  end.

(** [String(n)], as a template literal applies it: decimal digits for an
    integer (below 10^21 in magnitude, which timestamps are). *)
Definition number_to_string (n : number) : string :=
  match n with
  | Num z => pretty z
  | NaN => "NaN"
  end.

(** The values stored in a [SignallingInfo] object: the interface declares
    number fields, string fields and the [signalling_errors] object. *)
Inductive value : Type :=
| VUndefined
| VNumber (n : number)
| VString (s : string)
| VSignallingErrors (timestamp : number) (error_code error_description : string).

(** [ToNumber].  A plain object converts through ["[object Object]"] to
    [NaN].  The conversion of a string (which parses it) is left out: the
    only field converted, [call_initiation_time], is declared a number. *)
Definition ToNumber (v : value) : option number :=
  match v with
  | VUndefined => Some NaN
  | VNumber n => Some n
  | VString _ => None
  | VSignallingErrors _ _ _ => Some NaN
  end.

(** [ToBoolean] on a string: only the empty string is falsy. *)
Definition string_truthy (s : string) : bool :=
  match s with
  | EmptyString => false
  | String _ _ => true
  end.

(** A property read on a dictionary object: an absent key reads
    [undefined]. *)
Definition get (o : gmap string value) (k : string) : value :=
  default VUndefined (o !! k).

(** Object spread [{...a, ...b}]: the own properties of [a], then those of
    [b] written over them. *)
Definition spread {V : Type} (a b : gmap string V) : gmap string V := b ∪ a.

(** [hay.search(needle)] for a needle without regular-expression
    metacharacters: the index of the first occurrence, or [-1]. *)
Fixpoint search_from (needle hay : string) (i : Z) : Z :=
  if String.prefix needle hay then i
  else match hay with
       | EmptyString => -1
       | String _ rest => search_from needle rest (i + 1)
       end.

Definition search (hay needle : string) : Z := search_from needle hay 0.

End JS.

Import JS.

(** ** The session record *)

Abbreviation ExtraHeaders := (gmap string string).
Abbreviation SignallingInfo := (gmap string value).
Abbreviation MediaConnectionInformation := (gmap string number).

(** The part of the browser's [RTCPeerConnection] the class reads and
    writes. *)
Record RTCPeerConnection : Type := {
  iceGatheringState : string;
  disableRtpTimeOut : bool;
}.

Record RTCSession : Type := {
  connection : option RTCPeerConnection;
}.

(** The part of a [GetRTPStats] instance the class touches: two interval
    handles (and a [stop] method, recorded as an effect). *)
Record GetRTPStats : Type := {
  statsTimer : option Z;
  audioTimer : option Z;
}.

Module STATE.
Definition INITIALIZED := "initialized".
Definition RINGING := "ringing".
Definition ANSWERED := "answered".
Definition REJECTED := "rejected".
Definition IGNORED := "ignored".
Definition CANCELED := "canceled".
Definition FAILED := "failed".
Definition ENDED := "ended".
End STATE.

Record CallSession : Type := {
  callUUID : option string;
  sipCallID : option string;
  direction : string;
  src : string;
  dest : string;
  state : string;
  extraHeaders : ExtraHeaders;
  session : option RTCSession;
  connectionStages : list string;
  gotInitalIce : bool;
  stats : option GetRTPStats;
  signallingInfo : SignallingInfo;
  mediaConnectionInfo : MediaConnectionInformation;
  postDialDelayEndTime : option number;
}.

Record CallSessionOptions : Type := {
  opt_callUUID : option string;
  opt_sipCallID : option string;
  opt_direction : string;
  opt_src : string;
  opt_dest : string;
  opt_session : option RTCSession;
  opt_extraHeaders : ExtraHeaders;
  opt_call_initiation_time : option number;
}.

Record CallInfo : Type := {
  info_callUUID : option string;
  info_direction : string;
  info_src : string;
  info_dest : string;
  info_state : string;
  info_extraHeaders : ExtraHeaders;
}.

(** Field assignments [this.f = v]: every other field keeps its value. *)

Definition set_callUUID (v : option string) (s : CallSession) : CallSession :=
  {| callUUID := v; sipCallID := sipCallID s; direction := direction s;
     src := src s; dest := dest s; state := state s;
     extraHeaders := extraHeaders s; session := session s;
     connectionStages := connectionStages s; gotInitalIce := gotInitalIce s;
     stats := stats s; signallingInfo := signallingInfo s;
     mediaConnectionInfo := mediaConnectionInfo s;
     postDialDelayEndTime := postDialDelayEndTime s |}.

Definition set_state (v : string) (s : CallSession) : CallSession :=
  {| callUUID := callUUID s; sipCallID := sipCallID s;
     direction := direction s; src := src s; dest := dest s; state := v;
     extraHeaders := extraHeaders s; session := session s;
     connectionStages := connectionStages s; gotInitalIce := gotInitalIce s;
     stats := stats s; signallingInfo := signallingInfo s;
     mediaConnectionInfo := mediaConnectionInfo s;
     postDialDelayEndTime := postDialDelayEndTime s |}.

Definition set_session (v : option RTCSession) (s : CallSession) : CallSession :=
  {| callUUID := callUUID s; sipCallID := sipCallID s;
     direction := direction s; src := src s; dest := dest s;
     state := state s; extraHeaders := extraHeaders s; session := v;
     connectionStages := connectionStages s; gotInitalIce := gotInitalIce s;
     stats := stats s; signallingInfo := signallingInfo s;
     mediaConnectionInfo := mediaConnectionInfo s;
     postDialDelayEndTime := postDialDelayEndTime s |}.

Definition set_connectionStages (v : list string) (s : CallSession) : CallSession :=
  {| callUUID := callUUID s; sipCallID := sipCallID s;
     direction := direction s; src := src s; dest := dest s;
     state := state s; extraHeaders := extraHeaders s; session := session s;
     connectionStages := v; gotInitalIce := gotInitalIce s;
     stats := stats s; signallingInfo := signallingInfo s;
     mediaConnectionInfo := mediaConnectionInfo s;
     postDialDelayEndTime := postDialDelayEndTime s |}.

Definition set_gotInitalIce (v : bool) (s : CallSession) : CallSession :=
  {| callUUID := callUUID s; sipCallID := sipCallID s;
     direction := direction s; src := src s; dest := dest s;
     state := state s; extraHeaders := extraHeaders s; session := session s;
     connectionStages := connectionStages s; gotInitalIce := v;
     stats := stats s; signallingInfo := signallingInfo s;
     mediaConnectionInfo := mediaConnectionInfo s;
     postDialDelayEndTime := postDialDelayEndTime s |}.

Definition set_stats (v : option GetRTPStats) (s : CallSession) : CallSession :=
  {| callUUID := callUUID s; sipCallID := sipCallID s;
     direction := direction s; src := src s; dest := dest s;
     state := state s; extraHeaders := extraHeaders s; session := session s;
     connectionStages := connectionStages s; gotInitalIce := gotInitalIce s;
     stats := v; signallingInfo := signallingInfo s;
     mediaConnectionInfo := mediaConnectionInfo s;
     postDialDelayEndTime := postDialDelayEndTime s |}.

Definition set_signallingInfo (v : SignallingInfo) (s : CallSession) : CallSession :=
  {| callUUID := callUUID s; sipCallID := sipCallID s;
     direction := direction s; src := src s; dest := dest s;
     state := state s; extraHeaders := extraHeaders s; session := session s;
     connectionStages := connectionStages s; gotInitalIce := gotInitalIce s;
     stats := stats s; signallingInfo := v;
     mediaConnectionInfo := mediaConnectionInfo s;
     postDialDelayEndTime := postDialDelayEndTime s |}.

Definition set_mediaConnectionInfo (v : MediaConnectionInformation) (s : CallSession) : CallSession :=
  {| callUUID := callUUID s; sipCallID := sipCallID s;
     direction := direction s; src := src s; dest := dest s;
     state := state s; extraHeaders := extraHeaders s; session := session s;
     connectionStages := connectionStages s; gotInitalIce := gotInitalIce s;
     stats := stats s; signallingInfo := signallingInfo s;
     mediaConnectionInfo := v;
     postDialDelayEndTime := postDialDelayEndTime s |}.

Definition set_postDialDelayEndTime (v : option number) (s : CallSession) : CallSession :=
  {| callUUID := callUUID s; sipCallID := sipCallID s;
     direction := direction s; src := src s; dest := dest s;
     state := state s; extraHeaders := extraHeaders s; session := session s;
     connectionStages := connectionStages s; gotInitalIce := gotInitalIce s;
     stats := stats s; signallingInfo := signallingInfo s;
     mediaConnectionInfo := mediaConnectionInfo s;
     postDialDelayEndTime := v |}.

(** ** Collaborators: the client object, the events, the recorded calls *)

Record AudioView : Type := {
  paused : bool;
}.

(** The stats engine bound to a client.  The class passes two of its members
    on without reading them; they are kept as opaque tokens. *)
Record CallStats : Type := {
  fabricTerminated : string;
  getUserMedia : string;
}.

(** [clientObject._currentSession] refers to the session the handler runs on
    or to another session object. *)
Inductive session_ref : Type :=
| ThisSession
| OtherSession (other : CallSession).

Record Client : Type := {
  userName : option string;
  callStats : option CallStats;
  options_disableRtpTimeOut : bool;
  ringToneView : option AudioView;
  ringBackToneView : option AudioView;
  _currentSession : option session_ref;
}.

Module RTCIceCandidate.
Record t : Type := { candidate : string }.
End RTCIceCandidate.

(** [ready] is the callback of the event; calls to it are recorded under the
    identifier [ready]. *)
Record SessionIceCandidateEvent : Type := {
  candidate : option RTCIceCandidate.t;
  ready : nat;
}.

(** [SessionFailedEvent] and [SessionEndedEvent] carry the same two fields. *)
Record SessionEvent : Type := {
  originator : string;
  cause : string;
}.

Record Error : Type := {
  message : string;
}.

(** Declared in ../stats/nonRTPStats; the class hands it on unread. *)
Record DeviceAudioInfo : Type := {
  deviceInfo : string;
}.

(** Names of ../constants the class refers to. *)
Module C.
Inductive constant : Type :=
| ICE_GATHERING_TIMEOUT
| RINGTONE_ELEMENT_ID
| RINGBACK_ELEMENT_ID.
End C.

(** The two callbacks the class hands to [setTimeout]. *)
Inductive task : Type :=
| IceGatheringWatchdog (event : SessionIceCandidateEvent)
| OwaDetector.

Inductive delay : Type :=
| DelayConstant (c : C.constant)
| DelayMs (ms : Z).

Inductive log_message : Type :=
| PostAnswerDetectingOWA
| IceGatheringTakingMoreThan (c : C.constant) (gatheringState : string)
| IceGatheringTimedOut
| GetUserMediaFailedMessage (err : Error).

(** One constructor per collaborator call, with the arguments of the call.
    Every [X.call(clientObject, ...)] and [clientObject.emit] is made on the
    client the handler was given, which is not repeated here. *)
Inductive effect : Type :=
| addCloseProtectionListeners
| getAudioDevicesInfo
| sendCallAnsweredEvent (info : option DeviceAudioInfo) (flag : bool)
| callStart
| startVolumeDataStreaming
| stopVolumeDataStreaming
| setEncodingParameters
| statsCollector
| stopAudio (element : C.constant)
| emit_onCallAnswered (info : CallInfo)
| emit_onCallTerminated (evt : SessionEvent) (info : CallInfo)
| log_debug (msg : log_message)
| log_error (msg : log_message)
| setTimeout (callback : task) (after : delay)
| event_ready (id : nat)
| emitMetrics (group level type : string) (value : C.constant + number)
    (active : bool) (desc stream : string)
| onIceFailure (err : Error)
| handleMediaError (evt : SessionEvent)
| hangupClearance (target : session_ref)
| sendFabricEvent (conn : option RTCPeerConnection) (fabricEvent : string)
    (uuid : option string)
| reportError (name : string) (fn : string) (err : Error)
| onMediaFailure (err : Error)
| onSDPfailure (err : Error)
| clearInterval (handle : option Z)
| stats_stop.

(** ** State, exceptions and the monad of the handlers *)

Record world : Type := {
  self : CallSession;
  trace : list effect;
}.

Inductive exn : Type :=
| TypeError.

Inductive result (A : Type) : Type :=
| Ok (a : A)
| Throw (e : exn).
Arguments Ok {A} a.
Arguments Throw {A} e.

(** A method body: it may change the session, call collaborators and throw.
    What it changed before throwing stays changed. *)
Definition M (A : Type) : Type := world → result A * world.

#[global] Instance M_ret : MRet M := λ A a w, (Ok a, w).

#[global] Instance M_bind : MBind M := λ A B k m w,
  match m w with
  | (Ok a, w') => k a w'
  | (Throw e, w') => (Throw e, w')
  end.

Definition throw {A : Type} (e : exn) : M A := λ w, (Throw e, w).

Definition this : M CallSession := λ w, (Ok (self w), w).

Definition assign (f : CallSession → CallSession) : M unit :=
  λ w, (Ok tt, {| self := f (self w); trace := trace w |}).

Definition call (e : effect) : M unit :=
  λ w, (Ok tt, {| self := self w; trace := trace w ++ [e] |}).

(** Dereference of a possibly null object. *)
Definition deref {A : Type} (o : option A) : M A :=
  match o with
  | Some a => mret a
  | None => throw TypeError
  end.

Definition when (b : bool) (m : M unit) : M unit :=
  if b then m else mret tt.

(** The world a method leaves behind, whether it returned or threw. *)
Definition exec {A : Type} (m : M A) (w : world) : world := (m w).2.

(** ** The methods of [CallSession] *)

Definition new_CallSession (options : CallSessionOptions) : CallSession :=
  {| callUUID :=
       match opt_callUUID options with
       | Some u => if string_truthy u then Some u else None
       | None => None
       end;
     sipCallID := opt_sipCallID options;
     direction := opt_direction options;
     src := opt_src options;
     dest := opt_dest options;
     state := STATE.INITIALIZED;
     extraHeaders := opt_extraHeaders options;
     session := opt_session options;
     connectionStages := [];
     gotInitalIce := false;
     stats := None;
     signallingInfo :=
       match opt_call_initiation_time options with
       | Some t =>
           if number_truthy t
           then {[ "call_initiation_time" := VNumber t ]}
           else ∅
       | None => ∅
       end;
     mediaConnectionInfo := ∅;
     postDialDelayEndTime := None |}.

Definition setCallUUID (callUUID : option string) : M unit :=
  assign (set_callUUID callUUID).

Definition setState (state : string) : M unit :=
  assign (set_state state).

Definition addConnectionStage (stage : string) : M unit :=
  assign (λ s, set_connectionStages (connectionStages s ++ [stage]) s).

Definition getConnectionStages : M (list string) :=
  s ← this; mret (connectionStages s).

Definition setCallStats (stats : GetRTPStats) : M unit :=
  assign (set_stats (Some stats)).

Definition updateSignallingInfo (object : SignallingInfo) : M unit :=
  assign (λ s, set_signallingInfo (spread (signallingInfo s) object) s).

Definition updateMediaConnectionInfo (object : MediaConnectionInformation) : M unit :=
  assign (λ s, set_mediaConnectionInfo (spread (mediaConnectionInfo s) object) s).

(** [a ? a : 0 - b]: the conditional binds looser than [-], so the
    subtraction belongs to the else branch only. *)
Definition post_dial_delay (s : CallSession) : option number :=
  match postDialDelayEndTime s with
  | Some t =>
      if number_truthy t then Some t
      else sub (Num 0) <$> ToNumber (get (signallingInfo s) "call_initiation_time")
  | None => sub (Num 0) <$> ToNumber (get (signallingInfo s) "call_initiation_time")
  end.

(** [None] only where [ToNumber] is not modelled. *)
Definition getSignallingInfo (s : CallSession) : option SignallingInfo :=
  d ← post_dial_delay s;
  Some (spread (signallingInfo s) {[ "post_dial_delay" := VNumber d ]}).

Definition getMediaConnectionInfo (s : CallSession) : MediaConnectionInformation :=
  spread (mediaConnectionInfo s) ∅.

(** [!this.postDialDelayEndTime]: [null], [0] and [NaN] all count as unset. *)
Definition postDialDelayEndTime_truthy (s : CallSession) : bool :=
  match postDialDelayEndTime s with
  | Some t => number_truthy t
  | None => false
  end.

Definition setPostDialDelayEndTime (time : number) : M unit :=
  s ← this;
  when (negb (postDialDelayEndTime_truthy s))
    (assign (set_postDialDelayEndTime (Some time))).

Definition getCallInfo (s : CallSession) : CallInfo :=
  {| info_callUUID := callUUID s;
     info_direction := direction s;
     info_src := src s;
     info_dest := dest s;
     info_state := state s;
     info_extraHeaders := extraHeaders s |}.

Definition clearCallStats_body (st : GetRTPStats) : M unit :=
  call (clearInterval (statsTimer st));;
  call (clearInterval (audioTimer st));;
  call stats_stop;;
  assign (set_stats None).

Definition _clearCallStats : M unit :=
  s ← this;
  match stats s with
  | None => mret tt
  | Some st => clearCallStats_body st
  end.

Definition clearCallStats : M unit := _clearCallStats.

(** [now] is the reading [getCurrentTime()] returns.  The reaction on the
    promise of [getAudioDevicesInfo] is [AudioDevicesInfo_reaction] below. *)
Definition _onAccepted (clientObject : Client) (now : number) : M unit :=
  call addCloseProtectionListeners;;
  call getAudioDevicesInfo;;
  updateSignallingInfo {[ "answer_time" := VNumber now ]};;
  call callStart;;
  call startVolumeDataStreaming.

Definition view_playing (v : option AudioView) : bool :=
  match v with
  | Some a => negb (paused a)
  | None => false
  end.

(** [(this.session.connection as any).disableRtpTimeOut = true] *)
Definition set_disableRtpTimeOut : M unit :=
  s ← this;
  sess ← deref (session s);
  conn ← deref (connection sess);
  assign (set_session (Some {| connection :=
    Some {| iceGatheringState := iceGatheringState conn;
            disableRtpTimeOut := true |} |})).

(** [now1], [now2]: the two readings of [getCurrentTime()], in order.  The
    arguments of the final [setTimeout] are evaluated before the call, and
    [this.session.connection] is one of them. *)
Definition _onConfirmed (clientObject : Client) (now1 now2 : number) : M unit :=
  addConnectionStage ("confirmed@" +:+ number_to_string now1);;
  setState STATE.ANSWERED;;
  updateSignallingInfo {[ "call_confirmed_time" := VNumber now2 ]};;
  call setEncodingParameters;;
  when (options_disableRtpTimeOut clientObject) set_disableRtpTimeOut;;
  call statsCollector;;
  when (view_playing (ringToneView clientObject))
    (call (stopAudio C.RINGTONE_ELEMENT_ID));;
  when (view_playing (ringBackToneView clientObject))
    (call (stopAudio C.RINGBACK_ELEMENT_ID));;
  s ← this;
  call (emit_onCallAnswered (getCallInfo s));;
  call (log_debug PostAnswerDetectingOWA);;
  sess ← deref (session s);
  call (setTimeout OwaDetector (DelayMs 3000)).

(** [candidate && candidate.candidate.search('srflx') !== -1] *)
Definition srflx_candidate (event : SessionIceCandidateEvent) : bool :=
  match candidate event with
  | Some c => negb (Z.eqb (search (RTCIceCandidate.candidate c) "srflx") (-1))
  | None => false
  end.

Definition _onIceCandidate (clientObject : Client)
    (event : SessionIceCandidateEvent) : M unit :=
  if srflx_candidate event then call (event_ready (ready event))
  else
    s ← this;
    if gotInitalIce s then mret tt
    else
      assign (set_gotInitalIce true);;
      call (setTimeout (IceGatheringWatchdog event)
              (DelayConstant C.ICE_GATHERING_TIMEOUT)).

(** The callback [_onIceCandidate] schedules.  It reads [this.session] and
    the gathering state when it runs. *)
Definition IceGatheringWatchdog_callback
    (event : SessionIceCandidateEvent) : M unit :=
  s ← this;
  match session s with
  | None => mret tt
  | Some sess =>
      match connection sess with
      | Some connection =>
          if negb (String.eqb (iceGatheringState connection) "complete") then
            call (event_ready (ready event));;
            call (log_debug (IceGatheringTakingMoreThan C.ICE_GATHERING_TIMEOUT
                               (iceGatheringState connection)));;
            call (emitMetrics "network" "warning" "ice_timeout"
                    (inl C.ICE_GATHERING_TIMEOUT) true
                    "Possible NAT/Firewall issue" "None")
          else mret tt
      | None => mret tt
      end
  end.

(** The callback [_onConfirmed] schedules: [owaNotification.bind(...)] builds
    a function and calls nothing. *)
Definition OwaDetector_callback : M unit := mret tt.

Definition fire (t : task) : M unit :=
  match t with
  | IceGatheringWatchdog event => IceGatheringWatchdog_callback event
  | OwaDetector => OwaDetector_callback
  end.

Definition _onIceTimeout (clientObject : Client) (sec : number) : M unit :=
  call (log_debug IceGatheringTimedOut);;
  call (emitMetrics "network" "warning" "ice_timeout" (inr sec) true
          "Possible NAT/Firewall issue" "None");;
  call (onIceFailure {| message := "ice_timeout" |}).

Definition hangup_record (evt : SessionEvent) (now : number) : SignallingInfo :=
  {[ "hangup_time" := VNumber now;
     "hangup_party" := VString (originator evt);
     "hangup_reason" := VString (cause evt) ]}.

Definition _onFailed (clientObject : Client) (evt : SessionEvent)
    (now1 now2 : number) : M unit :=
  addConnectionStage ("failed@" +:+ number_to_string now1);;
  updateSignallingInfo (hangup_record evt now2);;
  call (handleMediaError evt);;
  call (hangupClearance ThisSession);;
  call stopVolumeDataStreaming.

Definition resolve_ref (r : session_ref) (s : CallSession) : CallSession :=
  match r with
  | ThisSession => s
  | OtherSession other => other
  end.

Definition _onEnded (clientObject : Client) (evt : SessionEvent)
    (now1 now2 : number) : M unit :=
  addConnectionStage ("ended@" +:+ number_to_string now1);;
  setState STATE.ENDED;;
  updateSignallingInfo (hangup_record evt now2);;
  match callStats clientObject with
  | Some engine =>
      s ← this;
      sess ← deref (session s);
      call (sendFabricEvent (connection sess) (fabricTerminated engine)
              (callUUID s))
  | None => mret tt
  end;;
  match _currentSession clientObject with
  | Some current =>
      s ← this;
      call (emit_onCallTerminated evt (getCallInfo (resolve_ref current s)));;
      call (hangupClearance current);;
      call stopVolumeDataStreaming
  | None => mret tt
  end.

(** [clientObject.userName && clientObject.callStats]: the user name set and
    not empty, and a stats engine bound. *)
Definition reporting (clientObject : Client) : option (string * CallStats) :=
  match userName clientObject, callStats clientObject with
  | Some name, Some engine =>
      if string_truthy name then Some (name, engine) else None
  | _, _ => None
  end.

(** The error object is the caller's: a rewritten [message] is what
    [onMediaFailure] then sees. *)
Definition _onGetUserMediaFailed (clientObject : Client) (err : Error) : M unit :=
  call (log_error (GetUserMediaFailedMessage err));;
  match reporting clientObject with
  | Some (name, engine) =>
      let err' := {| message := "getusermediafailed" |} in
      call (reportError name (getUserMedia engine) err');;
      call (onMediaFailure err')
  | None => call (onMediaFailure err)
  end.

(** [`${msg}`] for a string, or for an [Error] through
    [Error.prototype.toString]. *)
Definition msg_to_string (msg : string + Error) : string :=
  match msg with
  | inl s => s
  | inr e => if string_truthy (message e) then "Error: " +:+ message e else "Error"
  end.

Definition _handlePeerConnectionFailures (clientObject : Client)
    (msg : string + Error) (callStatscb : option string) (err : Error) : M unit :=
  match reporting clientObject, callStatscb with
  | Some (name, _), Some cb =>
      let err' := {| message := "peerconnection:" +:+ msg_to_string msg |} in
      call (reportError name cb err');;
      call (onSDPfailure err')
  | _, _ => call (onSDPfailure err)
  end.

(** The public handlers forward to the private ones. *)
Definition onAccepted := _onAccepted.
Definition onConfirmed := _onConfirmed.
Definition onIceCandidate := _onIceCandidate.
Definition onIceTimeout := _onIceTimeout.
Definition onFailed := _onFailed.
Definition onEnded := _onEnded.
Definition onGetUserMediaFailed := _onGetUserMediaFailed.
Definition handlePeerConnectionFailures := _handlePeerConnectionFailures.

(** ** Promises *)

Inductive reason : Type :=
| RejectedWith (what : string)
| Raised (e : exn).

Inductive settled (A : Type) : Type :=
| Fulfilled (a : A)
| Rejected (r : reason).
Arguments Fulfilled {A} a.
Arguments Rejected {A} r.

(** Runs a reaction: its return value fulfils the derived promise, an
    exception it throws rejects it. *)
Definition react {A : Type} (m : M A) : M (settled A) := λ w,
  match m w with
  | (Ok a, w') => (Ok (Fulfilled a), w')
  | (Throw e, w') => (Ok (Rejected (Raised e)), w')
  end.

(** [p.then(onFulfilled)]: a rejection passes through. *)
Definition promise_then {A B : Type} (onFulfilled : A → M B)
    (p : settled A) : M (settled B) :=
  match p with
  | Fulfilled a => react (onFulfilled a)
  | Rejected r => mret (Rejected r)
  end.

(** [p.catch(onRejected)]: a fulfilment passes through. *)
Definition promise_catch {A : Type} (onRejected : reason → M A)
    (p : settled A) : M (settled A) :=
  match p with
  | Fulfilled a => mret (Fulfilled a)
  | Rejected r => react (onRejected r)
  end.

(** [getAudioDevicesInfo.call(clientObject).then(...).catch(...)] of
    [_onAccepted], run when the promise settles with [outcome]. *)
Definition AudioDevicesInfo_reaction (clientObject : Client)
    (outcome : settled DeviceAudioInfo) : M (settled unit) :=
  p ← promise_then
        (λ deviceInfo, call (sendCallAnsweredEvent (Some deviceInfo) true))
        outcome;
  promise_catch (λ _, call (sendCallAnsweredEvent None true)) p.

(** ** [fetchIPAddress] *)

Module IPAddress.

Record IncomingResponse : Type := {
  body : option string;
}.

Record SucceededData : Type := {
  response : option IncomingResponse;
}.

(** The events a [SipLib.Message] emits after [send]. *)
Inductive message_event : Type :=
| succeeded (data : SucceededData)
| failed.

Inductive promise (A : Type) : Type :=
| Pending
| Resolved (v : A)
| RejectedPromise (r : reason).
Arguments Pending {A}.
Arguments Resolved {A} v.
Arguments RejectedPromise {A} r.

(** The [resolve] function of a promise: only the first call settles it. *)
Definition resolve {A : Type} (v : A) (p : promise A) : promise A :=
  match p with
  | Pending => Resolved v
  | _ => p
  end.

Definition couldnt_retrieve : Error :=
  {| message := "couldn't retrieve ipaddress" |}.

Definition on_succeeded (data : SucceededData)
    (p : promise (string + Error)) : promise (string + Error) :=
  match response data with
  | Some r =>
      match body r with
      | Some b =>
          if string_truthy b then resolve (inl b) p
          else resolve (inr couldnt_retrieve) p
      | None => resolve (inr couldnt_retrieve) p
      end
  | None => resolve (inr couldnt_retrieve) p
  end.

Definition on_failed (p : promise (string + Error)) : promise (string + Error) :=
  resolve (inr couldnt_retrieve) p.

Definition deliver (p : promise (string + Error)) (e : message_event)
    : promise (string + Error) :=
  match e with
  | succeeded data => on_succeeded data p
  | failed => on_failed p
  end.

(** The promise [fetchIPAddress(client)] returns, after the message has
    emitted [events].  The executor takes [resolve] only; constructing and
    sending the message are taken to return normally. *)
Definition fetchIPAddress (events : list message_event) : promise (string + Error) :=
  foldl deliver Pending events.

Definition is_rejected {A : Type} (p : promise A) : bool :=
  match p with
  | RejectedPromise _ => true
  | _ => false
  end.

End IPAddress.

(** ** Sequences of operations *)

Inductive operation : Type :=
| op_setCallUUID (callUUID : option string)
| op_setState (state : string)
| op_addConnectionStage (stage : string)
| op_setCallStats (stats : GetRTPStats)
| op_clearCallStats
| op_updateSignallingInfo (object : SignallingInfo)
| op_updateMediaConnectionInfo (object : MediaConnectionInformation)
| op_setPostDialDelayEndTime (time : number)
| op_onAccepted (cs : Client) (now : number)
| op_onConfirmed (cs : Client) (now1 now2 : number)
| op_onIceCandidate (cs : Client) (event : SessionIceCandidateEvent)
| op_onIceTimeout (cs : Client) (sec : number)
| op_onFailed (cs : Client) (event : SessionEvent) (now1 now2 : number)
| op_onEnded (cs : Client) (event : SessionEvent) (now1 now2 : number)
| op_onGetUserMediaFailed (cs : Client) (error : Error)
| op_handlePeerConnectionFailures (cs : Client) (msg : string + Error)
    (callStatscb : option string) (err : Error)
| op_fire (callback : task)
| op_settle (cs : Client) (outcome : settled DeviceAudioInfo).

Definition perform (op : operation) : M unit :=
  match op with
  | op_setCallUUID u => setCallUUID u
  | op_setState st => setState st
  | op_addConnectionStage stage => addConnectionStage stage
  | op_setCallStats st => setCallStats st
  | op_clearCallStats => clearCallStats
  | op_updateSignallingInfo o => updateSignallingInfo o
  | op_updateMediaConnectionInfo o => updateMediaConnectionInfo o
  | op_setPostDialDelayEndTime t => setPostDialDelayEndTime t
  | op_onAccepted cs now => onAccepted cs now
  | op_onConfirmed cs now1 now2 => onConfirmed cs now1 now2
  | op_onIceCandidate cs event => onIceCandidate cs event
  | op_onIceTimeout cs sec => onIceTimeout cs sec
  | op_onFailed cs event now1 now2 => onFailed cs event now1 now2
  | op_onEnded cs event now1 now2 => onEnded cs event now1 now2
  | op_onGetUserMediaFailed cs error => onGetUserMediaFailed cs error
  | op_handlePeerConnectionFailures cs msg cb err =>
      handlePeerConnectionFailures cs msg cb err
  | op_fire callback => fire callback
  | op_settle cs outcome => AudioDevicesInfo_reaction cs outcome;; mret tt
  end.

(** An exception of a handler goes to its caller; the session keeps what the
    handler wrote, and the next operation runs on it. *)
Definition run (ops : list operation) (w : world) : world :=
  foldl (λ w op, exec (perform op) w) w ops.

Definition terminal (state : string) : bool :=
  bool_decide (state ∈ [STATE.REJECTED; STATE.IGNORED; STATE.CANCELED;
                        STATE.FAILED; STATE.ENDED]).

(** The operations whose body assigns [this.state]. *)
Definition writes_state (op : operation) : bool :=
  match op with
  | op_setState _ | op_onConfirmed _ _ _ | op_onEnded _ _ _ _ => true
  | _ => false
  end.

Definition writes_callUUID (op : operation) : bool :=
  match op with
  | op_setCallUUID _ => true
  | _ => false
  end.

(** ** Reading a trace *)

Fixpoint count (p : effect → bool) (l : list effect) : nat :=
  match l with
  | [] => 0
  | e :: l' => (if p e then 1 else 0) + count p l'
  end.

Definition is_watchdog_timer (e : effect) : bool :=
  match e with
  | setTimeout (IceGatheringWatchdog _) _ => true
  | _ => false
  end.

Definition is_ready (e : effect) : bool :=
  match e with
  | event_ready _ => true
  | _ => false
  end.

Definition is_ice_timeout (e : effect) : bool :=
  match e with
  | emitMetrics _ _ type _ _ _ _ => String.eqb type "ice_timeout"
  | _ => false
  end.

Definition is_answered (e : effect) : bool :=
  match e with
  | sendCallAnsweredEvent _ _ => true
  | _ => false
  end.

(** The callbacks handed to [setTimeout], in the order they were scheduled. *)
Fixpoint scheduled (l : list effect) : list task :=
  match l with
  | [] => []
  | setTimeout t _ :: l' => t :: scheduled l'
  | _ :: l' => scheduled l'
  end.

(** The candidates of a stream, delivered in order. *)
Definition gather (cs : Client) (events : list SessionIceCandidateEvent)
    (w : world) : world :=
  foldl (λ w event, exec (onIceCandidate cs event) w) w events.

(** The host's view of the session object changes under the class (the
    browser moves [iceGatheringState], teardown drops the reference). *)
Definition host_session (v : option RTCSession) (w : world) : world :=
  {| self := set_session v (self w); trace := trace w |}.

Definition initial (options : CallSessionOptions) : world :=
  {| self := new_CallSession options; trace := [] |}.

(** ** Sample inputs *)

Definition connection0 : RTCPeerConnection :=
  {| iceGatheringState := "gathering"; disableRtpTimeOut := false |}.

Definition options0 : CallSessionOptions :=
  {| opt_callUUID := None;
     opt_sipCallID := Some "sip-1";
     opt_direction := "outgoing";
     opt_src := "alice";
     opt_dest := "bob";
     opt_session := Some {| connection := Some connection0 |};
     opt_extraHeaders := ∅;
     opt_call_initiation_time := Some (Num 1000) |}.

Definition client0 : Client :=
  {| userName := Some "alice";
     callStats := None;
     options_disableRtpTimeOut := false;
     ringToneView := None;
     ringBackToneView := None;
     _currentSession := Some ThisSession |}.

Definition hangup0 : SessionEvent :=
  {| originator := "remote"; cause := "Terminated" |}.

Definition host_event : SessionIceCandidateEvent :=
  {| candidate := Some {| RTCIceCandidate.candidate :=
       "candidate:1 1 udp 2122260223 10.0.0.2 40000 typ host generation 0" |};
     ready := 1%nat |}.

Definition srflx_event : SessionIceCandidateEvent :=
  {| candidate := Some {| RTCIceCandidate.candidate :=
       "candidate:2 1 udp 1686052607 203.0.113.5 40000 typ srflx raddr 10.0.0.2 rport 40000 generation 0" |};
     ready := 2%nat |}.

Definition relay_event : SessionIceCandidateEvent :=
  {| candidate := Some {| RTCIceCandidate.candidate :=
       "candidate:3 1 udp 41885439 198.51.100.7 50000 typ relay raddr 203.0.113.5 rport 40000 generation 0" |};
     ready := 3%nat |}.

(** A session on which the first ringing response was stamped at 1500,
    500 ms after the initiation time 1000 given to the constructor. *)
Definition ringing_seen : CallSession :=
  self (exec (setPostDialDelayEndTime (Num 1500)) (initial options0)).

Definition ended_world : world :=
  exec (onEnded client0 hangup0 (Num 5000) (Num 5001)) (initial options0).

(** The delay as the documentation of the field describes it, the delta
    between the INVITE and the ringing response:
    [(postDialDelayEndTime if set, else 0) - call_initiation_time]. *)
Definition documented_post_dial_delay (s : CallSession) : option number :=
  let end_time :=
    match postDialDelayEndTime s with
    | Some t => if number_truthy t then t else Num 0
    | None => Num 0
    end in
  sub end_time <$> ToNumber (get (signallingInfo s) "call_initiation_time").

Definition writes_postDialDelayEndTime (op : operation) : bool :=
  match op with
  | op_setPostDialDelayEndTime _ => true
  | _ => false
  end.

(** [keeps f m]: whatever [m] does, returning or throwing, the projection
    [f] of the session is afterwards what it was. *)
Definition keeps {B A : Type} (f : CallSession → B) (m : M A) : Prop :=
  ∀ w, f (self (exec m w)) = f (self w).

(** ** What each operation contributes

    Read off the method bodies: the stage an operation appends to
    [connectionStages] and the partial record it merges into
    [signallingInfo]. *)

Definition stages_appended (op : operation) : list string :=
  match op with
  | op_addConnectionStage stage => [stage]
  | op_onConfirmed _ now1 _ => ["confirmed@" +:+ number_to_string now1]
  | op_onFailed _ _ now1 _ => ["failed@" +:+ number_to_string now1]
  | op_onEnded _ _ now1 _ => ["ended@" +:+ number_to_string now1]
  | _ => []
  end.

Definition signalling_merged (op : operation) : SignallingInfo :=
  match op with
  | op_updateSignallingInfo object => object
  | op_onAccepted _ now => {[ "answer_time" := VNumber now ]}
  | op_onConfirmed _ _ now2 => {[ "call_confirmed_time" := VNumber now2 ]}
  | op_onFailed _ event _ now2 => hangup_record event now2
  | op_onEnded _ event _ now2 => hangup_record event now2
  | _ => ∅
  end.

Definition media_merged (op : operation) : MediaConnectionInformation :=
  match op with
  | op_updateMediaConnectionInfo object => object
  | _ => ∅
  end.

Definition writes_stats (op : operation) : bool :=
  match op with
  | op_setCallStats _ | op_clearCallStats => true
  | _ => false
  end.

Definition is_setCallStats (op : operation) : bool :=
  match op with
  | op_setCallStats _ => true
  | _ => false
  end.

Definition is_onIceCandidate (op : operation) : bool :=
  match op with
  | op_onIceCandidate _ _ => true
  | _ => false
  end.

(** More readers of a trace. *)

Definition is_stats_stop (e : effect) : bool :=
  match e with
  | stats_stop => true
  | _ => false
  end.

Definition is_clearInterval (e : effect) : bool :=
  match e with
  | clearInterval _ => true
  | _ => false
  end.

Definition is_onCallAnswered (e : effect) : bool :=
  match e with
  | emit_onCallAnswered _ => true
  | _ => false
  end.

Definition is_onCallTerminated (e : effect) : bool :=
  match e with
  | emit_onCallTerminated _ _ => true
  | _ => false
  end.


Definition is_owa_timer (e : effect) : bool :=
  match e with
  | setTimeout OwaDetector _ => true
  | _ => false
  end.




Definition is_reportError (e : effect) : bool :=
  match e with
  | reportError _ _ _ => true
  | _ => false
  end.

Definition count_ops (p : operation → bool) (ops : list operation) : nat :=
  length (List.filter p ops).

Definition bool_to_nat (b : bool) : nat := if b then 1%nat else 0%nat.

Definition holds_stats (w : world) : bool :=
  match stats (self w) with
  | Some _ => true
  | None => false
  end.

(** [silent p m]: [m] makes no collaborator call that [p] selects. *)
Definition silent {A : Type} (p : effect → bool) (m : M A) : Prop :=
  ∀ w, count p (trace (exec m w)) = count p (trace w).

(** The session has a connection whose gathering is not complete: the one
    situation in which the watchdog callback acts. *)
Definition gathering_incomplete (s : CallSession) : bool :=
  match session s with
  | Some sess =>
      match connection sess with
      | Some conn => negb (String.eqb (iceGatheringState conn) "complete")
      | None => false
      end
  | None => false
  end.

(** What [onConfirmed] dereferences: the session always, its connection
    when the client asks for the RTP timeout to be disabled. *)
Definition confirmable (cs : Client) (s : CallSession) : bool :=
  match session s with
  | Some sess =>
      if options_disableRtpTimeOut cs then
        match connection sess with
        | Some _ => true
        | None => false
        end
      else true
  | None => false
  end.

(** [onConfirmed] gets past the RTP-timeout step: the client did not ask
    for the timeout to be disabled, or the connection to mark is there. *)
Definition rtp_step_passes (cs : Client) (s : CallSession) : bool :=
  if options_disableRtpTimeOut cs then
    match session s with
    | Some sess =>
        match connection sess with
        | Some _ => true
        | None => false
        end
    | None => false
    end
  else true.

(** The session object after [onConfirmed]: the connection marked, when the
    client asks for it and the connection is there. *)
Definition session_after_confirm (cs : Client) (s : CallSession)
    : option RTCSession :=
  if options_disableRtpTimeOut cs then
    match session s with
    | Some sess =>
        match connection sess with
        | Some conn =>
            Some {| connection :=
              Some {| iceGatheringState := iceGatheringState conn;
                      disableRtpTimeOut := true |} |}
        | None => session s
        end
    | None => None
    end
  else session s.


Definition select (p : effect → bool) (l : list effect) : list effect :=
  List.filter p l.


Definition hangup_keys : list string :=
  ["hangup_time"; "hangup_party"; "hangup_reason"].

(** ** The HTTP helpers

    [validateCallStats], [getPreSignedS3URL] and
    [uploadConsoleLogsToBucket] each build a promise around one [fetch].
    The outcome of the [fetch] (and of [response.text()]) is the input; the
    result is how the returned promise is settled and what was logged.
    [JSON.parse] is a parameter [parse] ([None]: it throws a SyntaxError),
    and so is the validity of a URL for [new URL].  The two API URLs are
    constants of ../constants and taken to be valid. *)

Module Http.

Inductive js_error : Type :=
| SyntaxError
| InvalidURL.

(** What a promise is rejected with: a string literal of the code, the
    reason [fetch] or [text()] failed with, or a thrown exception. *)
Inductive rejection : Type :=
| Message (text : string)
| Failure (what : string)
| Exception (e : js_error).

Inductive outcome (A : Type) : Type :=
| fulfilled (a : A)
| rejected (r : rejection).
Arguments fulfilled {A} a.
Arguments rejected {A} r.

Record Response : Type := {
  ok : bool;
  text : outcome string;
}.

Inductive promise (V : Type) : Type :=
| Pending
| Resolved (v : V)
| Rejected (r : rejection).
Arguments Pending {V}.
Arguments Resolved {V} v.
Arguments Rejected {V} r.

Inductive log_entry : Type :=
| info (msg : string)
| error (msg : string) (detail : option rejection).

(** The promise a helper returns, and the log beside it. *)
Record state (V : Type) : Type := {
  settled_as : promise V;
  logs : list log_entry;
}.
Arguments settled_as {V} s.
Arguments logs {V} s.

(** A callback: it may settle the promise, log and throw. *)
Definition H (V A : Type) : Type := state V → (A + js_error) * state V.

Definition ret {V A : Type} (a : A) : H V A := λ st, (inl a, st).

Definition bind {V A B : Type} (m : H V A) (k : A → H V B) : H V B := λ st,
  match m st with
  | (inl a, st') => k a st'
  | (inr e, st') => (inr e, st')
  end.

Definition throw {V A : Type} (e : js_error) : H V A := λ st, (inr e, st).

(** [resolve] and [reject] settle a pending promise and do nothing to a
    settled one. *)
Definition resolve {V : Type} (v : V) : H V unit := λ st,
  (inl tt,
   {| settled_as := match settled_as st with
                    | Pending => Resolved v
                    | p => p
                    end;
      logs := logs st |}).

Definition reject {V : Type} (r : rejection) : H V unit := λ st,
  (inl tt,
   {| settled_as := match settled_as st with
                    | Pending => Rejected r
                    | p => p
                    end;
      logs := logs st |}).

Definition log {V : Type} (e : log_entry) : H V unit := λ st,
  (inl tt, {| settled_as := settled_as st; logs := logs st ++ [e] |}).

Definition JSON_parse {V : Type} (parse : string → option V)
    (text : string) : H V V :=
  match parse text with
  | Some v => ret v
  | None => throw SyntaxError
  end.

(** A reaction settles the promise derived from it: fulfilled with what it
    returns, rejected with what it throws. *)
Definition react {V A : Type} (m : H V A) : H V (outcome A) := λ st,
  match m st with
  | (inl a, st') => (inl (fulfilled a), st')
  | (inr e, st') => (inl (rejected (Exception e)), st')
  end.

Definition and_then {V A B : Type} (p : outcome A) (onFulfilled : A → H V B)
    : H V (outcome B) :=
  match p with
  | fulfilled a => react (onFulfilled a)
  | rejected r => ret (rejected r)
  end.

Definition or_catch {V A : Type} (p : outcome A)
    (onRejected : rejection → H V A) : H V (outcome A) :=
  match p with
  | fulfilled a => ret (fulfilled a)
  | rejected r => react (onRejected r)
  end.

(** The state a chain of reactions leaves, from a pending promise. *)
Definition settle {V A : Type} (m : H V A) : state V :=
  (m {| settled_as := Pending; logs := [] |}).2.

(** *** The string methods applied to the user name

    Strings are byte strings (UTF-8).  [toLowerCase] is given on the ASCII
    letters; its result is only tested for the ASCII prefix ["sip:"], which
    no other character lowers into. *)

Definition lower (c : Ascii.ascii) : Ascii.ascii :=
  let n := Ascii.nat_of_ascii c in
  if ((65 <=? n) && (n <=? 90))%nat then Ascii.ascii_of_nat (n + 32) else c.



(** [s.split(sep)] for a one-character separator. *)
Fixpoint split (sep : Ascii.ascii) (s : string) : list string :=
  match s with
  | EmptyString => [EmptyString]
  | String c rest =>
      if Ascii.eqb c sep then EmptyString :: split sep rest
      else match split sep rest with
           | seg :: segs => String c seg :: segs
           | [] => [String c EmptyString]
           end
  end.


(** The character [:] (code 58). *)
Definition colon : Ascii.ascii := Ascii.ascii_of_nat 58.


(** *** [validateCallStats] *)

(** The reaction on [response.text()]. *)
Definition validateCallStats_body {V : Type} (parse : string → option V)
    (responsebody : string) : H V unit :=
  if negb (string_truthy responsebody) then
    bind (log (info "Call insights is not enabled")) (λ _,
    reject (Message "Call insights is not enabled"))
  else
    bind (JSON_parse parse responsebody) (λ parsedResponseBody,
    resolve parsedResponseBody).

(** The reaction on the [fetch].  The promise derived from
    [response.text().then(...)] is dropped: nothing reacts to it. *)
Definition validateCallStats_response {V : Type} (parse : string → option V)
    (response : Response) : H V unit :=
  if ok response then
    bind (and_then (text response) (validateCallStats_body parse)) (λ _,
    ret tt)
  else reject (Message "Incorrect response code").

Definition validateCallStats {V : Type} (parse : string → option V)
    (fetched : outcome Response) : state V :=
  settle
    (bind (and_then fetched (validateCallStats_response parse)) (λ p,
     or_catch p (λ err,
       bind (log (error "Error in getting token from call stats" (Some err)))
         (λ _, reject err)))).

(** *** [getPreSignedS3URL] *)

Definition getPreSignedS3URL_body {V : Type} (parse : string → option V)
    (responseBody : string) : H V unit :=
  if negb (string_truthy responseBody) then
    bind (log (error "Response is not valid" None)) (λ _,
    reject (Message "Response is not valid"))
  else
    bind (JSON_parse parse responseBody) (λ parsed,
    resolve parsed).

Definition getPreSignedS3URL_response {V : Type} (parse : string → option V)
    (response : Response) : H V unit :=
  if ok response then
    bind (and_then (text response) (getPreSignedS3URL_body parse)) (λ p,
    bind (or_catch p (λ error_,
            bind (log (error "Did not get s3 url to upload" (Some error_)))
              (λ _, reject (Message "Did not get s3 url to upload"))))
      (λ _, ret tt))
  else
    bind (log (error
      "WS API server did not return the presigned S3 Url for uploading call logs"
      None)) (λ _,
    reject (Message "Bad response from server")).

Definition getPreSignedS3URL {V : Type} (parse : string → option V)
    (fetched : outcome Response) : state V :=
  settle
    (bind (and_then fetched (getPreSignedS3URL_response parse)) (λ p,
     or_catch p (λ error_,
       bind (log (error
         "WS API server did not return the presigned S3 Url for uploading call logs"
         (Some error_))) (λ _,
       reject (Message
         "API server did not return the presigned S3 Url for uploading call logs"))))).

(** *** [uploadConsoleLogsToBucket] *)

Definition newline : string := String (Ascii.ascii_of_nat 10) EmptyString.

(** The parts of the uploaded file: the feedback, when there is one, as
    [`${JSON.stringify(feedback)} \n`], then the console logs. *)
Definition fileContent {F : Type} (stringify : F → string)
    (feedback : option F) (content : string) : list string :=
  (match feedback with
   | Some f => [stringify f +:+ " " +:+ newline]
   | None => []
   end ++ [content])%list.

(** [new URL(preSignedUrlReponse.data)] runs inside the executor: when it
    throws, the promise is rejected with the exception and no request is
    made. *)
Definition uploadConsoleLogsToBucket (valid_url : string → bool)
    (data : string) (fetched : outcome Response) : state string :=
  if valid_url data then
    settle
      (bind (and_then fetched (λ _,
               bind (log (info "Log file uploaded to server")) (λ _,
               resolve "done"))) (λ p,
       or_catch p (λ err,
         bind (log (error "Log file was not uploaded to server" (Some err)))
           (λ _, reject (Message "Log file was not uploaded to server")))))
  else {| settled_as := Rejected (Exception InvalidURL); logs := [] |}.

Definition rejection_messages : list string :=
  ["Response is not valid";
   "Did not get s3 url to upload";
   "Bad response from server";
   "API server did not return the presigned S3 Url for uploading call logs"].

End Http.

(** A stand-in for [JSON.parse] in examples: it accepts the texts that
    open an object. *)
Definition parse_object (text : string) : option string :=
  if String.prefix "{" text then Some text else None.

(** Classifiers of operations, by handler. *)




Definition is_onConfirmed (op : operation) : bool :=
  match op with
  | op_onConfirmed _ _ _ => true
  | _ => false
  end.

Definition is_onEnded (op : operation) : bool :=
  match op with
  | op_onEnded _ _ _ _ => true
  | _ => false
  end.

Definition is_settle (op : operation) : bool :=
  match op with
  | op_settle _ _ => true
  | _ => false
  end.

(** The state a state-writing operation stores. *)
Definition state_written (op : operation) (before : string) : string :=
  match op with
  | op_setState st => st
  | op_onConfirmed _ _ _ => STATE.ANSWERED
  | op_onEnded _ _ _ _ => STATE.ENDED
  | _ => before
  end.

(** ** Proof tools *)

Ltac unfold_methods :=
  unfold perform, onAccepted, onConfirmed, onIceCandidate, onIceTimeout,
    onFailed, onEnded, onGetUserMediaFailed, handlePeerConnectionFailures,
    _onAccepted, _onConfirmed, _onIceCandidate, _onIceTimeout, _onFailed,
    _onEnded, _onGetUserMediaFailed, _handlePeerConnectionFailures,
    clearCallStats, _clearCallStats, clearCallStats_body, setCallUUID,
    setState, addConnectionStage, setCallStats, updateSignallingInfo,
    updateMediaConnectionInfo, setPostDialDelayEndTime, set_disableRtpTimeOut,
    fire, IceGatheringWatchdog_callback, OwaDetector_callback,
    AudioDevicesInfo_reaction, promise_then, promise_catch in *.

(** *** Sequencing *)

Lemma exec_assign_bind {A : Type} (g : CallSession → CallSession)
    (k : unit → M A) (w : world) :
  exec (assign g ≫= k) w = exec (k tt) {| self := g (self w); trace := trace w |}.
Proof. reflexivity. Qed.

Lemma exec_call_bind {A : Type} (e : effect) (k : unit → M A) (w : world) :
  exec (call e ≫= k) w = exec (k tt) {| self := self w; trace := trace w ++ [e] |}.
Proof. reflexivity. Qed.

Lemma exec_this_bind {A : Type} (k : CallSession → M A) (w : world) :
  exec (this ≫= k) w = exec (k (self w)) w.
Proof. reflexivity. Qed.

Lemma exec_bind {A B : Type} (m : M A) (k : A → M B) (w : world) :
  exec (m ≫= k) w =
    match (m w).1 with
    | Ok a => exec (k a) (exec m w)
    | Throw _ => exec m w
    end.
Proof. unfold exec, mbind, M_bind. by destruct (m w) as [[a|e] w']. Qed.

Lemma run_app (ops1 ops2 : list operation) (w : world) :
  run (ops1 ++ ops2) w = run ops2 (run ops1 w).
Proof. apply foldl_app. Qed.

(** *** Methods that keep a field *)

Section Keeps.
Context {B : Type} (f : CallSession → B).

Lemma keeps_ret {A : Type} (a : A) : keeps f (mret a).
Proof. done. Qed.

Lemma keeps_throw {A : Type} (e : exn) : keeps f (@throw A e).
Proof. done. Qed.

Lemma keeps_this : keeps f this.
Proof. done. Qed.

Lemma keeps_call (e : effect) : keeps f (call e).
Proof. done. Qed.

Lemma keeps_deref {A : Type} (o : option A) : keeps f (deref o).
Proof. by destruct o. Qed.

Lemma keeps_assign (g : CallSession → CallSession) :
  (∀ s, f (g s) = f s) → keeps f (assign g).
Proof. intros Hg w. apply Hg. Qed.

Lemma keeps_bind {A C : Type} (m : M A) (k : A → M C) :
  keeps f m → (∀ a, keeps f (k a)) → keeps f (m ≫= k).
Proof.
  intros Hm Hk w. rewrite exec_bind.
  destruct ((m w).1) as [a|e]; [rewrite Hk|]; apply Hm.
Qed.

Lemma keeps_when (b : bool) (m : M unit) : keeps f m → keeps f (when b m).
Proof. by destruct b. Qed.

Lemma keeps_react {A : Type} (m : M A) : keeps f m → keeps f (react m).
Proof.
  intros Hm w. specialize (Hm w). unfold exec, react in *.
  by destruct (m w) as [[a|e] w'].
Qed.
End Keeps.

Ltac keeps_step :=
  first
    [ apply keeps_ret | apply keeps_throw | apply keeps_this
    | apply keeps_call | apply keeps_deref
    | apply keeps_assign; intros ?; reflexivity
    | apply keeps_bind; [| intros ?]
    | apply keeps_when | apply keeps_react
    | progress unfold_methods
    | progress cbv zeta
    | case_match ].

Ltac keeps_tac := repeat keeps_step.

Lemma perform_keeps_state (op : operation) :
  writes_state op = false → keeps state (perform op).
Proof. destruct op; intros Hw; try discriminate Hw; keeps_tac. Qed.

Lemma perform_keeps_callUUID (op : operation) :
  writes_callUUID op = false → keeps callUUID (perform op).
Proof. destruct op; intros Hw; try discriminate Hw; keeps_tac. Qed.

Lemma run_keeps {B : Type} (f : CallSession → B) (p : operation → bool)
    (ops : list operation) (w : world) :
  (∀ op, p op = false → keeps f (perform op)) →
  forallb (λ op, negb (p op)) ops = true →
  f (self (run ops w)) = f (self w).
Proof.
  intros Hp. revert w. induction ops as [|op ops IH]; intros w Hall; [done|].
  simpl in Hall. apply andb_prop in Hall as [Hop Hops].
  simpl. rewrite IH by done. apply Hp. by apply negb_true_iff.
Qed.

Lemma perform_keeps_postDialDelayEndTime (op : operation) :
  writes_postDialDelayEndTime op = false →
  keeps postDialDelayEndTime (perform op).
Proof. destruct op; intros Hw; try discriminate Hw; keeps_tac. Qed.

(** A stamped end time survives every operation, the setter included. *)
Lemma perform_postDialDelayEndTime_set (op : operation) (w : world) :
  postDialDelayEndTime_truthy (self w) = true →
  postDialDelayEndTime (self (exec (perform op) w)) = postDialDelayEndTime (self w).
Proof.
  intros Hset. destruct (writes_postDialDelayEndTime op) eqn:Hop.
  - destruct op; try discriminate Hop. simpl.
    unfold setPostDialDelayEndTime. rewrite exec_this_bind, Hset. done.
  - by apply perform_keeps_postDialDelayEndTime.
Qed.

Lemma run_postDialDelayEndTime_set (ops : list operation) (w : world) :
  postDialDelayEndTime_truthy (self w) = true →
  postDialDelayEndTime (self (run ops w)) = postDialDelayEndTime (self w).
Proof.
  revert w. induction ops as [|op ops IH]; intros w Hset; [done|].
  simpl. pose proof (perform_postDialDelayEndTime_set op w Hset) as Hop.
  rewrite IH; [done|].
  unfold postDialDelayEndTime_truthy in *. by rewrite Hop.
Qed.

(** *** Counting in traces *)

Lemma count_app (p : effect → bool) (l1 l2 : list effect) :
  count p (l1 ++ l2) = (count p l1 + count p l2)%nat.
Proof. induction l1 as [|e l1 IH]; simpl; [done|]. rewrite IH. lia. Qed.

Lemma scheduled_app (l1 l2 : list effect) :
  scheduled (l1 ++ l2) = (scheduled l1 ++ scheduled l2)%list.
Proof.
  induction l1 as [|e l1 IH]; simpl; [done|].
  destruct e; simpl; by rewrite ?IH.
Qed.

(** *** [search] finds exactly the substrings *)

Lemma append_nil_l (s : string) : "" +:+ s = s.
Proof. reflexivity. Qed.

Lemma append_cons (c : Ascii.ascii) (s t : string) :
  String c s +:+ t = String c (s +:+ t).
Proof. reflexivity. Qed.

Lemma prefix_app (s1 s2 : string) :
  String.prefix s1 s2 = true ↔ ∃ post, s2 = s1 +:+ post.
Proof.
  revert s2. induction s1 as [|a s1 IH]; intros s2.
  - destruct s2; simpl; split; eauto.
  - destruct s2 as [|b s2]; simpl.
    + split; [done|]. by intros [post ?].
    + destruct (Ascii.ascii_dec a b) as [->|Hne].
      * rewrite IH. split; intros [post Hp]; exists post;
          rewrite append_cons in *; congruence.
      * split; [done|]. intros [post Hp]. rewrite append_cons in Hp.
        congruence.
Qed.

Lemma search_from_found (needle hay : string) (i : Z) :
  0 ≤ i →
  search_from needle hay i ≠ -1 ↔ ∃ pre post, hay = pre +:+ needle +:+ post.
Proof.
  revert i. induction hay as [|c hay IH]; intros i Hi.
  - cbn [search_from]. destruct (String.prefix needle "") eqn:Hp.
    + split; [|intros _; lia]. intros _. apply prefix_app in Hp as [post Hp].
      by exists "", post.
    + split; [done|]. intros (pre & post & Heq).
      destruct pre; [|done]. rewrite append_nil_l in Heq.
      assert (String.prefix needle "" = true) by (apply prefix_app; eauto).
      congruence.
  - cbn [search_from]. destruct (String.prefix needle (String c hay)) eqn:Hp.
    + split; [|intros _; lia]. intros _. apply prefix_app in Hp as [post Hp].
      by exists "", post.
    + rewrite IH by lia. split.
      * intros (pre & post & ->). by exists (String c pre), post.
      * intros (pre & post & Heq). destruct pre as [|c' pre].
        -- rewrite append_nil_l in Heq.
           assert (String.prefix needle (String c hay) = true)
             by (apply prefix_app; eauto).
           congruence.
        -- rewrite append_cons in Heq. exists pre, post. congruence.
Qed.

Lemma search_found (hay needle : string) :
  search hay needle ≠ -1 ↔ ∃ pre post, hay = pre +:+ needle +:+ post.
Proof. by apply search_from_found. Qed.

(** *** One candidate *)

Lemma onIceCandidate_exec (cs : Client) (event : SessionIceCandidateEvent)
    (w : world) :
  exec (onIceCandidate cs event) w =
    if srflx_candidate event
    then {| self := self w; trace := trace w ++ [event_ready (ready event)] |}
    else if gotInitalIce (self w) then w
    else {| self := set_gotInitalIce true (self w);
            trace := trace w ++
              [setTimeout (IceGatheringWatchdog event)
                 (DelayConstant C.ICE_GATHERING_TIMEOUT)] |}.
Proof.
  unfold onIceCandidate, _onIceCandidate.
  destruct (srflx_candidate event); [done|].
  rewrite exec_this_bind. by destruct (gotInitalIce (self w)).
Qed.

Lemma gather_cons (cs : Client) (event : SessionIceCandidateEvent)
    (events : list SessionIceCandidateEvent) (w : world) :
  gather cs (event :: events) w =
    gather cs events (exec (onIceCandidate cs event) w).
Proof. reflexivity. Qed.

(** Once the flag is up, candidates schedule nothing: the reflexive ones
    signal ready, the others do nothing at all. *)
Lemma gather_armed (cs : Client) (events : list SessionIceCandidateEvent)
    (w : world) :
  gotInitalIce (self w) = true →
  self (gather cs events w) = self w ∧
  scheduled (trace (gather cs events w)) = scheduled (trace w) ∧
  count is_watchdog_timer (trace (gather cs events w)) =
    count is_watchdog_timer (trace w) ∧
  count is_ice_timeout (trace (gather cs events w)) =
    count is_ice_timeout (trace w) ∧
  count is_ready (trace (gather cs events w)) =
    (count is_ready (trace w) + length (List.filter srflx_candidate events))%nat.
Proof.
  revert w. induction events as [|event events IH]; intros w Harmed.
  - simpl. repeat split; lia.
  - rewrite gather_cons, onIceCandidate_exec. simpl List.filter.
    destruct (srflx_candidate event).
    + destruct (IH {| self := self w;
                      trace := trace w ++ [event_ready (ready event)] |})
        as (-> & -> & -> & -> & ->); [done|].
      cbn [self trace]. rewrite scheduled_app, !count_app. simpl.
      rewrite app_nil_r. repeat split; lia.
    + rewrite Harmed. destruct (IH w Harmed) as (-> & -> & -> & -> & ->).
      repeat split; lia.
Qed.

Lemma gather_watchdog_at_most_once (cs : Client)
    (events : list SessionIceCandidateEvent) (w : world) :
  (count is_watchdog_timer (trace (gather cs events w))
     ≤ count is_watchdog_timer (trace w) + 1)%nat.
Proof.
  revert w. induction events as [|event events IH]; intros w; [simpl; lia|].
  rewrite gather_cons, onIceCandidate_exec.
  destruct (srflx_candidate event).
  - etrans; [apply IH|]. cbn [trace]. rewrite count_app. simpl. lia.
  - destruct (gotInitalIce (self w)) eqn:Harmed; [apply IH|].
    match goal with |- context [gather cs events ?w'] =>
      destruct (gather_armed cs events w') as (_ & _ & -> & _); [done|]
    end.
    cbn [trace]. rewrite count_app. simpl. lia.
Qed.

(** ** The read-time post-dial delay *)

Lemma post_dial_delay_stamped (s : CallSession) (t : number) :
  postDialDelayEndTime s = Some t → number_truthy t = true →
  post_dial_delay s = Some t.
Proof. unfold post_dial_delay. by intros -> ->. Qed.

Lemma post_dial_delay_unstamped (s : CallSession) :
  postDialDelayEndTime_truthy s = false →
  post_dial_delay s = documented_post_dial_delay s.
Proof.
  unfold postDialDelayEndTime_truthy, post_dial_delay, documented_post_dial_delay.
  destruct (postDialDelayEndTime s) as [t|]; [|done]. by intros ->.
Qed.

(** C1.  The claim gives [post_dial_delay] as (end time if set, else 0) minus
    [call_initiation_time].  On a session initiated at 1000 whose ringing
    response was stamped at 1500 the snapshot of [getSignallingInfo] carries
    1500, the end time itself, where the claimed difference is 500: the
    subtraction sits in the else branch of the conditional only. *)
Theorem getSignallingInfo_post_dial_delay_not_subtracted :
  get (signallingInfo ringing_seen) "call_initiation_time" = VNumber (Num 1000) ∧
  postDialDelayEndTime ringing_seen = Some (Num 1500) ∧
  getSignallingInfo ringing_seen ≫= (.!! "post_dial_delay")
    = Some (VNumber (Num 1500)) ∧
  documented_post_dial_delay ringing_seen = Some (Num 500).
Proof. repeat split; vm_compute; reflexivity. Qed.

(** ** The reflexive-candidate fast path *)

(** C2, as stated, fails on a relay candidate: delivered first on a new
    session it signals nothing, raises the flag and schedules the watchdog. *)
Lemma relay_candidate_arms_watchdog :
  count is_ready
    (trace (exec (onIceCandidate client0 relay_event) (initial options0))) = 0%nat ∧
  gotInitalIce
    (self (exec (onIceCandidate client0 relay_event) (initial options0))) = true ∧
  scheduled
    (trace (exec (onIceCandidate client0 relay_event) (initial options0)))
    = [IceGatheringWatchdog relay_event].
Proof. repeat split; vm_compute; reflexivity. Qed.

(** C2, amended.  A candidate whose candidate line contains [srflx] makes
    [onIceCandidate] call [ready] once and return: the session, its flag
    included, is untouched and no timer is scheduled by that call. *)
Theorem srflx_candidate_signals_ready (cs : Client)
    (event : SessionIceCandidateEvent) (c : RTCIceCandidate.t)
    (pre post : string) (w : world)
    (Hc : candidate event = Some c)
    (Hs : RTCIceCandidate.candidate c = pre +:+ "srflx" +:+ post) :
  exec (onIceCandidate cs event) w =
    {| self := self w; trace := trace w ++ [event_ready (ready event)] |}.
Proof.
  rewrite onIceCandidate_exec. unfold srflx_candidate. rewrite Hc.
  assert (search (RTCIceCandidate.candidate c) "srflx" ≠ -1) as Hfound
    by (apply search_found; eauto).
  apply Z.eqb_neq in Hfound. by rewrite Hfound.
Qed.

Lemma srflx_candidate_signals_ready_witness :
  exec (onIceCandidate client0 srflx_event) (initial options0) =
    {| self := self (initial options0);
       trace := trace (initial options0) ++ [event_ready (ready srflx_event)] |}.
Proof.
  apply (srflx_candidate_signals_ready client0 srflx_event
           {| RTCIceCandidate.candidate :=
                "candidate:2 1 udp 1686052607 203.0.113.5 40000 typ srflx raddr 10.0.0.2 rport 40000 generation 0" |}
           "candidate:2 1 udp 1686052607 203.0.113.5 40000 typ "
           " raddr 10.0.0.2 rport 40000 generation 0"
           (initial options0)).
  - reflexivity.
  - reflexivity.
Defined.

(** ** The state field *)

(** C3, as stated, fails: [onConfirmed] on a session that has ended moves
    its state from [ended] back to [answered]. *)
Lemma onConfirmed_leaves_ended :
  state (self ended_world) = STATE.ENDED ∧
  terminal (state (self ended_world)) = true ∧
  state (self (exec (onConfirmed client0 (Num 6000) (Num 6001)) ended_world))
    = STATE.ANSWERED ∧
  terminal STATE.ANSWERED = false.
Proof. repeat split; vm_compute; reflexivity. Qed.

(** C3, amended.  The class keeps no transition table: [setState] stores its
    argument, [onConfirmed] stores [answered] and [onEnded] stores [ended],
    whatever the state was.  No other operation of the class assigns the
    state, so any sequence without these three leaves it (a terminal one
    included) as it was. *)
Theorem state_assigned_by_three_operations (ops : list operation) (w : world)
    (cs : Client) (event : SessionEvent) (st : string) (now1 now2 : number)
    (Hops : forallb (λ op, negb (writes_state op)) ops = true) :
  state (self (exec (setState st) w)) = st ∧
  state (self (exec (onConfirmed cs now1 now2) w)) = STATE.ANSWERED ∧
  state (self (exec (onEnded cs event now1 now2) w)) = STATE.ENDED ∧
  state (self (run ops w)) = state (self w).
Proof.
  split; [done|]. split; [|split].
  - unfold onConfirmed, _onConfirmed, addConnectionStage, setState,
      updateSignallingInfo.
    rewrite !exec_assign_bind.
    match goal with |- state (self (exec ?m ?w')) = _ =>
      assert (keeps state m) as Hk by keeps_tac; by rewrite (Hk w')
    end.
  - unfold onEnded, _onEnded, addConnectionStage, setState,
      updateSignallingInfo.
    rewrite !exec_assign_bind.
    match goal with |- state (self (exec ?m ?w')) = _ =>
      assert (keeps state m) as Hk by keeps_tac; by rewrite (Hk w')
    end.
  - by apply (run_keeps state writes_state), Hops; apply perform_keeps_state.
Qed.

Lemma state_assigned_by_three_operations_witness :
  state (self (run [op_onAccepted client0 (Num 7000);
                    op_onIceCandidate client0 host_event;
                    op_onFailed client0 hangup0 (Num 7001) (Num 7002);
                    op_clearCallStats]
                 ended_world)) = state (self ended_world).
Proof.
  apply (state_assigned_by_three_operations _ ended_world client0 hangup0
           STATE.FAILED (Num 0) (Num 0)).
  reflexivity.
Defined.

(** ** The ICE-gathering watchdog *)

(** What the watchdog does when it fires on a live session whose gathering
    has not completed. *)
Lemma watchdog_fires (event : SessionIceCandidateEvent) (w : world)
    (sess : RTCSession) (conn : RTCPeerConnection) :
  session (self w) = Some sess → connection sess = Some conn →
  iceGatheringState conn ≠ "complete" →
  exec (fire (IceGatheringWatchdog event)) w =
    {| self := self w;
       trace := trace w ++
         [event_ready (ready event);
          log_debug (IceGatheringTakingMoreThan C.ICE_GATHERING_TIMEOUT
                       (iceGatheringState conn));
          emitMetrics "network" "warning" "ice_timeout"
            (inl C.ICE_GATHERING_TIMEOUT) true
            "Possible NAT/Firewall issue" "None"] |}.
Proof.
  intros Hsess Hconn Hstate. apply String.eqb_neq in Hstate.
  unfold fire, IceGatheringWatchdog_callback.
  rewrite exec_this_bind, Hsess, Hconn, Hstate. simpl.
  unfold exec, call, mbind, M_bind. simpl. by rewrite <- !app_assoc.
Qed.

(** C4, as stated, fails on the second ready signal: a host candidate arms
    the watchdog, a reflexive candidate after it signals ready, and the
    watchdog, firing while gathering is still under way, signals ready
    again. *)
Lemma srflx_after_arming_second_ready :
  srflx_candidate host_event = false ∧
  count is_ready
    (trace (run [op_onIceCandidate client0 host_event;
                 op_onIceCandidate client0 srflx_event;
                 op_fire (IceGatheringWatchdog host_event)]
              (initial options0))) = 2%nat.
Proof. split; vm_compute; reflexivity. Qed.

(** C4, amended.  Over any stream of candidates, from any session, at most
    one watchdog timer is scheduled.  When the stream starts on an unarmed
    session with a candidate that is not reflexive, that candidate's timer
    is the one scheduled; fired on a live session whose gathering is not
    complete it produces exactly one [ice_timeout] diagnostic and one ready
    signal, next to one ready signal for each reflexive candidate of the
    rest of the stream: exactly one if there is none. *)
Theorem watchdog_single_shot (cs : Client) (first : SessionIceCandidateEvent)
    (rest : list SessionIceCandidateEvent) (w : world)
    (conn : RTCPeerConnection)
    (Hunarmed : gotInitalIce (self w) = false)
    (Hfirst : srflx_candidate first = false)
    (Hgathering : iceGatheringState conn ≠ "complete") :
  let w1 := gather cs (first :: rest) w in
  let w2 := exec (fire (IceGatheringWatchdog first))
              (host_session (Some {| connection := Some conn |}) w1) in
  (∀ events w0,
     (count is_watchdog_timer (trace (gather cs events w0))
        ≤ count is_watchdog_timer (trace w0) + 1)%nat) ∧
  scheduled (trace w1) = (scheduled (trace w) ++ [IceGatheringWatchdog first])%list ∧
  count is_ice_timeout (trace w2) = (count is_ice_timeout (trace w) + 1)%nat ∧
  count is_ready (trace w2) =
    (count is_ready (trace w) + 1
       + length (List.filter srflx_candidate rest))%nat.
Proof.
  intros w1 w2. split; [apply gather_watchdog_at_most_once|].
  subst w2 w1. rewrite gather_cons, onIceCandidate_exec, Hfirst, Hunarmed.
  match goal with |- context [gather cs rest ?w'] =>
    destruct (gather_armed cs rest w') as (Hself & Hsched & _ & Htimeout & Hready);
      [done|]
  end.
  rewrite (watchdog_fires first _ {| connection := Some conn |} conn)
    by done.
  cbn [trace host_session]. rewrite !count_app, Hsched, Htimeout, Hready.
  cbn [trace]. rewrite scheduled_app, !count_app. simpl.
  repeat split; lia.
Qed.

Lemma watchdog_single_shot_witness :
  count is_ice_timeout
    (trace (exec (fire (IceGatheringWatchdog host_event))
              (host_session (Some {| connection := Some connection0 |})
                 (gather client0 [host_event; relay_event] (initial options0)))))
    = 1%nat ∧
  count is_ready
    (trace (exec (fire (IceGatheringWatchdog host_event))
              (host_session (Some {| connection := Some connection0 |})
                 (gather client0 [host_event; relay_event] (initial options0)))))
    = 1%nat.
Proof.
  assert (iceGatheringState connection0 ≠ "complete") as Hgathering
    by discriminate.
  destruct (watchdog_single_shot client0 host_event [relay_event]
              (initial options0) connection0 eq_refl eq_refl Hgathering)
    as (_ & _ & Htimeout & Hready).
  split; [exact Htimeout | exact Hready].
Defined.

(** ** Write-once fields and plain setters *)

(** C5, as stated, fails when the first value is [0]: the guard tests the
    stored value for truthiness, so a stored [0] counts as unset and the
    second call overwrites it. *)
Lemma setPostDialDelayEndTime_zero_overwritten :
  postDialDelayEndTime
    (self (run [op_setPostDialDelayEndTime (Num 0);
                op_setPostDialDelayEndTime (Num 5)]
             (initial options0))) = Some (Num 5) ∧
  Num 0 ≠ Num 5.
Proof. split; [vm_compute; reflexivity | discriminate]. Qed.

(** C5, amended.  On a session whose end time is unset, a first call with a
    truthy time (neither [0] nor [NaN]) stores it, a second call with any
    time leaves it, and so does every later sequence of operations. *)
Theorem postDialDelayEndTime_write_once (w : world) (t1 t2 : number)
    (ops : list operation)
    (Hunset : postDialDelayEndTime_truthy (self w) = false)
    (Ht1 : number_truthy t1 = true) :
  postDialDelayEndTime
    (self (exec (setPostDialDelayEndTime t2)
             (exec (setPostDialDelayEndTime t1) w))) = Some t1 ∧
  postDialDelayEndTime
    (self (run ops (exec (setPostDialDelayEndTime t1) w))) = Some t1.
Proof.
  assert (postDialDelayEndTime (self (exec (setPostDialDelayEndTime t1) w))
          = Some t1) as Hfirst.
  { unfold setPostDialDelayEndTime. by rewrite exec_this_bind, Hunset. }
  assert (postDialDelayEndTime_truthy
            (self (exec (setPostDialDelayEndTime t1) w)) = true) as Hset.
  { unfold postDialDelayEndTime_truthy. by rewrite Hfirst. }
  split.
  - rewrite <- Hfirst.
    apply (perform_postDialDelayEndTime_set (op_setPostDialDelayEndTime t2)), Hset.
  - rewrite <- Hfirst. apply run_postDialDelayEndTime_set, Hset.
Qed.

Lemma postDialDelayEndTime_write_once_witness :
  postDialDelayEndTime
    (self (exec (setPostDialDelayEndTime (Num 1700))
             (exec (setPostDialDelayEndTime (Num 1500)) (initial options0))))
    = Some (Num 1500).
Proof.
  apply (postDialDelayEndTime_write_once (initial options0) (Num 1500)
           (Num 1700) [op_onConfirmed client0 (Num 2000) (Num 2001)]).
  - reflexivity.
  - reflexivity.
Defined.

(** C6, as stated, fails: a second [setCallUUID] with another identifier
    replaces the first. *)
Lemma setCallUUID_overwrites :
  callUUID (self (exec (setCallUUID (Some "uuid-a")) (initial options0)))
    = Some "uuid-a" ∧
  callUUID
    (self (exec (setCallUUID (Some "uuid-b"))
             (exec (setCallUUID (Some "uuid-a")) (initial options0))))
    = Some "uuid-b".
Proof. split; reflexivity. Qed.

(** C6, amended.  [setCallUUID] stores its argument whatever the identifier
    was; no other operation of the class assigns the identifier, so any
    sequence without [setCallUUID] leaves it as it was. *)
Theorem callUUID_assigned_by_setCallUUID_only (ops : list operation)
    (w : world) (u : option string)
    (Hops : forallb (λ op, negb (writes_callUUID op)) ops = true) :
  callUUID (self (exec (setCallUUID u) w)) = u ∧
  callUUID (self (run ops w)) = callUUID (self w).
Proof.
  split; [done|].
  by apply (run_keeps callUUID writes_callUUID), Hops;
    apply perform_keeps_callUUID.
Qed.

Lemma callUUID_assigned_by_setCallUUID_only_witness :
  callUUID
    (self (run [op_onConfirmed client0 (Num 2000) (Num 2001);
                op_setState STATE.RINGING;
                op_onEnded client0 hangup0 (Num 3000) (Num 3001)]
             (exec (setCallUUID (Some "uuid-a")) (initial options0))))
    = callUUID (self (exec (setCallUUID (Some "uuid-a")) (initial options0))).
Proof.
  apply (callUUID_assigned_by_setCallUUID_only _
           (exec (setCallUUID (Some "uuid-a")) (initial options0)) None).
  reflexivity.
Defined.

(** ** Releasing the stats handle *)





(** ** Merging into the signalling record *)

(** C8.  [updateSignallingInfo] merges: after [{a: va}] and then [{b: vb}]
    the record holds both; a key absent from the argument keeps whatever the
    record had under it (a value or nothing), and a key of the argument
    takes the argument's value. *)
Theorem updateSignallingInfo_shallow_merge (w : world) (a b : string)
    (va vb : value) (partial : SignallingInfo) (k k' : string) (v' : value)
    (Hab : a ≠ b)
    (Habsent : partial !! k = None)
    (Hpresent : partial !! k' = Some v') :
  let w2 := exec (updateSignallingInfo {[ b := vb ]})
              (exec (updateSignallingInfo {[ a := va ]}) w) in
  let w' := exec (updateSignallingInfo partial) w in
  signallingInfo (self w2) !! a = Some va ∧
  signallingInfo (self w2) !! b = Some vb ∧
  signallingInfo (self w') !! k = signallingInfo (self w) !! k ∧
  signallingInfo (self w') !! k' = Some v'.
Proof.
  simpl. unfold spread. repeat split.
  - rewrite lookup_union_r by by apply lookup_singleton_ne.
    apply lookup_union_Some_l, lookup_singleton_eq.
  - apply lookup_union_Some_l, lookup_singleton_eq.
  - by apply lookup_union_r.
  - by apply lookup_union_Some_l.
Qed.

Lemma updateSignallingInfo_shallow_merge_witness :
  signallingInfo
    (self (exec (updateSignallingInfo {[ "b" := VNumber (Num 2) ]})
             (exec (updateSignallingInfo {[ "a" := VNumber (Num 1) ]})
                (initial options0)))) !! "a" = Some (VNumber (Num 1)) ∧
  signallingInfo
    (self (exec (updateSignallingInfo {[ "b" := VNumber (Num 2) ]})
             (exec (updateSignallingInfo {[ "a" := VNumber (Num 1) ]})
                (initial options0)))) !! "b" = Some (VNumber (Num 2)) ∧
  signallingInfo
    (self (exec (updateSignallingInfo {[ "answer_time" := VNumber (Num 1800) ]})
             (initial options0))) !! "call_initiation_time"
    = Some (VNumber (Num 1000)).
Proof.
  assert ("a" ≠ "b") as Hab by discriminate.
  assert (({[ "answer_time" := VNumber (Num 1800) ]} : SignallingInfo)
            !! "call_initiation_time" = None) as Habsent
    by (vm_compute; reflexivity).
  assert (({[ "answer_time" := VNumber (Num 1800) ]} : SignallingInfo)
            !! "answer_time" = Some (VNumber (Num 1800))) as Hpresent
    by (vm_compute; reflexivity).
  destruct (updateSignallingInfo_shallow_merge (initial options0) "a" "b"
              (VNumber (Num 1)) (VNumber (Num 2))
              {[ "answer_time" := VNumber (Num 1800) ]}
              "call_initiation_time" "answer_time" (VNumber (Num 1800))
              Hab Habsent Hpresent)
    as (Ha & Hb & Hk & _).
  split; [exact Ha|]. split; [exact Hb|].
  rewrite Hk. vm_compute. reflexivity.
Defined.

(** ** The answered event of [onAccepted] *)

(** C9.  [onAccepted] queries the device information, and when that query
    settles the answered event is sent exactly once: with the device
    information if it fulfilled, with [null] in its place if it rejected,
    whatever the reason. *)
Theorem onAccepted_answered_either_way (cs : Client) (now : number)
    (deviceInfo : DeviceAudioInfo) (r : reason) (w : world) :
  let w1 := exec (onAccepted cs now) w in
  trace w1 = (trace w ++ [addCloseProtectionListeners; getAudioDevicesInfo;
                          callStart; startVolumeDataStreaming])%list ∧
  trace (exec (AudioDevicesInfo_reaction cs (Fulfilled deviceInfo)) w1)
    = (trace w1 ++ [sendCallAnsweredEvent (Some deviceInfo) true])%list ∧
  trace (exec (AudioDevicesInfo_reaction cs (Rejected r)) w1)
    = (trace w1 ++ [sendCallAnsweredEvent None true])%list ∧
  count is_answered
    (trace (exec (AudioDevicesInfo_reaction cs (Fulfilled deviceInfo)) w1))
    = (count is_answered (trace w) + 1)%nat ∧
  count is_answered
    (trace (exec (AudioDevicesInfo_reaction cs (Rejected r)) w1))
    = (count is_answered (trace w) + 1)%nat.
Proof.
  simpl. rewrite <- !app_assoc. simpl. rewrite !count_app. simpl.
  repeat split; lia.
Qed.

(** ** [fetchIPAddress] *)

Lemma deliver_settled (events : list IPAddress.message_event)
    (v : string + Error) :
  foldl IPAddress.deliver (IPAddress.Resolved v) events = IPAddress.Resolved v.
Proof.
  induction events as [|e events IH]; [done|]. simpl. rewrite <- IH at 2.
  f_equal. destruct e as [[[[[b|]]|]]|]; try done.
  simpl. unfold IPAddress.on_succeeded. simpl. by destruct (string_truthy b).
Qed.

Lemma fetchIPAddress_first (e : IPAddress.message_event)
    (rest : list IPAddress.message_event) :
  IPAddress.fetchIPAddress (e :: rest) = IPAddress.deliver IPAddress.Pending e.
Proof.
  unfold IPAddress.fetchIPAddress. simpl.
  destruct e as [[[[[b|]]|]]|]; simpl; unfold IPAddress.on_succeeded; simpl;
    try apply deliver_settled.
  destruct (string_truthy b); apply deliver_settled.
Qed.

(** C10.  Whatever the message emits first settles the promise, and always
    by resolving it: [succeeded] with a non-empty response body resolves with
    that body; [succeeded] with an empty body, without a body or without a
    response, and [failed], resolve with the [Error] value.  Before any
    event the promise is pending, and after any events it is not rejected. *)
Theorem fetchIPAddress_never_rejects (c : Ascii.ascii) (b : string)
    (events rest : list IPAddress.message_event) :
  let with_body body :=
    IPAddress.succeeded
      {| IPAddress.response := Some {| IPAddress.body := body |} |} in
  IPAddress.is_rejected (IPAddress.fetchIPAddress events) = false ∧
  IPAddress.fetchIPAddress [] = IPAddress.Pending ∧
  IPAddress.fetchIPAddress (with_body (Some (String c b)) :: rest)
    = IPAddress.Resolved (inl (String c b)) ∧
  IPAddress.fetchIPAddress (with_body (Some "") :: rest)
    = IPAddress.Resolved (inr IPAddress.couldnt_retrieve) ∧
  IPAddress.fetchIPAddress (with_body None :: rest)
    = IPAddress.Resolved (inr IPAddress.couldnt_retrieve) ∧
  IPAddress.fetchIPAddress
      (IPAddress.succeeded {| IPAddress.response := None |} :: rest)
    = IPAddress.Resolved (inr IPAddress.couldnt_retrieve) ∧
  IPAddress.fetchIPAddress (IPAddress.failed :: rest)
    = IPAddress.Resolved (inr IPAddress.couldnt_retrieve).
Proof.
  intros with_body. split.
  - destruct events as [|e events]; [done|]. rewrite fetchIPAddress_first.
    destruct e as [[[[[body|]]|]]|]; try done.
    simpl. unfold IPAddress.on_succeeded. simpl. by destruct (string_truthy body).
  - split; [done|]. repeat split; by rewrite fetchIPAddress_first.
Qed.

(** * Further properties of the class *)

(** ** Proof tools: methods that do not make a kind of call *)

Section Silent.
Context (p : effect → bool).

Lemma silent_ret {A : Type} (a : A) : silent p (mret a).
Proof. done. Qed.

Lemma silent_throw {A : Type} (e : exn) : silent p (@throw A e).
Proof. done. Qed.

Lemma silent_this : silent p this.
Proof. done. Qed.

Lemma silent_deref {A : Type} (o : option A) : silent p (deref o).
Proof. by destruct o. Qed.

Lemma silent_assign (g : CallSession → CallSession) : silent p (assign g).
Proof. done. Qed.

Lemma silent_call (e : effect) : p e = false → silent p (call e).
Proof.
  intros He w. unfold exec, call. cbn [snd trace].
  rewrite count_app. simpl. rewrite He. lia.
Qed.

Lemma silent_bind {A C : Type} (m : M A) (k : A → M C) :
  silent p m → (∀ a, silent p (k a)) → silent p (m ≫= k).
Proof.
  intros Hm Hk w. rewrite exec_bind.
  destruct ((m w).1) as [a|e]; [rewrite Hk|]; apply Hm.
Qed.

Lemma silent_when (b : bool) (m : M unit) : silent p m → silent p (when b m).
Proof. by destruct b. Qed.

Lemma silent_react {A : Type} (m : M A) : silent p m → silent p (react m).
Proof.
  intros Hm w. specialize (Hm w). unfold exec, react in *.
  by destruct (m w) as [[a|e] w'].
Qed.
End Silent.

Ltac silent_step :=
  first
    [ apply silent_ret | apply silent_throw | apply silent_this
    | apply silent_deref | apply silent_assign
    | apply silent_call; reflexivity
    | apply silent_bind; [| intros ?]
    | apply silent_when | apply silent_react
    | progress unfold_methods
    | progress cbv zeta
    | case_match ].

Ltac silent_tac := repeat silent_step.

(** After the leading assignments of a method, the rest keeps [f]. *)
Ltac rest_keeps f :=
  rewrite ?exec_assign_bind;
  match goal with
  | |- context [exec ?m ?w'] =>
      let Hk := fresh "Hk" in
      assert (keeps f m) as Hk by keeps_tac; rewrite (Hk w')
  end.

Lemma run_cons (op : operation) (ops : list operation) (w : world) :
  run (op :: ops) w = run ops (exec (perform op) w).
Proof. reflexivity. Qed.

(** ** The timeline of stages *)

Lemma perform_connectionStages (op : operation) (w : world) :
  connectionStages (self (exec (perform op) w))
    = (connectionStages (self w) ++ stages_appended op)%list.
Proof.
  destruct op;
    try (cbn [stages_appended]; rewrite app_nil_r;
         match goal with |- context [exec ?m w] =>
           assert (keeps connectionStages m) as Hk by keeps_tac; apply Hk
         end).
  - reflexivity.
  - cbn [perform stages_appended].
    unfold onConfirmed, _onConfirmed, addConnectionStage, setState,
      updateSignallingInfo.
    by rest_keeps connectionStages.
  - cbn [perform stages_appended].
    unfold onFailed, _onFailed, addConnectionStage, updateSignallingInfo.
    by rest_keeps connectionStages.
  - cbn [perform stages_appended].
    unfold onEnded, _onEnded, addConnectionStage, setState,
      updateSignallingInfo.
    by rest_keeps connectionStages.
Qed.

(** The stages after any sequence of operations (handlers, setters, timers
    firing, promise reactions) are the stages before, followed by the stage
    of each operation that has one, in the order the operations ran: nothing
    is removed, rewritten or reordered, also when a handler throws. *)
Theorem connectionStages_append_only (ops : list operation) (w : world) :
  connectionStages (self (run ops w))
    = (connectionStages (self w) ++ concat (stages_appended <$> ops))%list.
Proof.
  revert w. induction ops as [|op ops IH]; intros w.
  - simpl. by rewrite app_nil_r.
  - rewrite run_cons, IH, perform_connectionStages, fmap_cons.
    simpl. by rewrite app_assoc.
Qed.

(** ** The signalling record only grows *)

Lemma spread_empty {V : Type} (m : gmap string V) : spread m ∅ = m.
Proof. unfold spread. by rewrite (left_id_L ∅ (∪)). Qed.

Lemma perform_signallingInfo (op : operation) (w : world) :
  signallingInfo (self (exec (perform op) w))
    = spread (signallingInfo (self w)) (signalling_merged op).
Proof.
  destruct op;
    try (cbn [signalling_merged]; rewrite spread_empty;
         match goal with |- context [exec ?m w] =>
           assert (keeps signallingInfo m) as Hk by keeps_tac; apply Hk
         end).
  - reflexivity.
  - cbn [perform signalling_merged].
    unfold onAccepted, _onAccepted, updateSignallingInfo.
    rewrite !exec_call_bind. by rest_keeps signallingInfo.
  - cbn [perform signalling_merged].
    unfold onConfirmed, _onConfirmed, addConnectionStage, setState,
      updateSignallingInfo.
    by rest_keeps signallingInfo.
  - cbn [perform signalling_merged].
    unfold onFailed, _onFailed, addConnectionStage, updateSignallingInfo.
    by rest_keeps signallingInfo.
  - cbn [perform signalling_merged].
    unfold onEnded, _onEnded, addConnectionStage, setState,
      updateSignallingInfo.
    by rest_keeps signallingInfo.
Qed.

(** Over any sequence of operations no key of the signalling record is ever
    deleted, and a key that none of the operations merges (see
    [signalling_merged]) keeps its value, or its absence. *)
Theorem signallingInfo_only_merged (ops : list operation) (w : world)
    (k : string)
    (Hk : forallb (λ op, bool_decide (signalling_merged op !! k = None)) ops
          = true) :
  dom (signallingInfo (self w)) ⊆ dom (signallingInfo (self (run ops w))) ∧
  signallingInfo (self (run ops w)) !! k = signallingInfo (self w) !! k.
Proof.
  split.
  - clear Hk. revert w. induction ops as [|op ops IH]; intros w; [done|].
    rewrite run_cons. etrans; [|apply IH].
    rewrite perform_signallingInfo. unfold spread. rewrite dom_union.
    set_solver.
  - revert w. induction ops as [|op ops IH]; intros w; [done|].
    simpl in Hk. apply andb_prop in Hk as [Hop Hops].
    apply bool_decide_eq_true in Hop.
    rewrite run_cons, IH by done. rewrite perform_signallingInfo.
    unfold spread. by apply lookup_union_r.
Qed.

Lemma signallingInfo_only_merged_witness :
  signallingInfo
    (self (run [op_onAccepted client0 (Num 1800);
                op_onConfirmed client0 (Num 1900) (Num 1901);
                op_onEnded client0 hangup0 (Num 5000) (Num 5001)]
             (initial options0))) !! "call_initiation_time"
    = signallingInfo (self (initial options0)) !! "call_initiation_time".
Proof.
  apply (signallingInfo_only_merged _ (initial options0)
           "call_initiation_time").
  vm_compute. reflexivity.
Defined.

(** ** Merging composes *)

(** Two [updateSignallingInfo] calls in a row are one call with the second
    argument spread over the first; on a key both arguments have, the later
    call wins; and repeating a call changes nothing. *)
Theorem updateSignallingInfo_compose (o1 o2 : SignallingInfo) (w : world)
    (k : string) (v2 : value) (Hk : o2 !! k = Some v2) :
  exec (updateSignallingInfo o2) (exec (updateSignallingInfo o1) w)
    = exec (updateSignallingInfo (spread o1 o2)) w ∧
  signallingInfo
    (self (exec (updateSignallingInfo o2) (exec (updateSignallingInfo o1) w)))
    !! k = Some v2 ∧
  exec (updateSignallingInfo o1) (exec (updateSignallingInfo o1) w)
    = exec (updateSignallingInfo o1) w.
Proof.
  unfold updateSignallingInfo, exec, assign, set_signallingInfo, spread.
  cbn. repeat split.
  - by rewrite (assoc_L (∪)).
  - by apply lookup_union_Some_l.
  - by rewrite (assoc_L (∪)), (idemp_L (∪)).
Qed.

Lemma updateSignallingInfo_compose_witness :
  signallingInfo
    (self (exec (updateSignallingInfo {[ "hangup_party" := VString "local" ]})
             (exec (updateSignallingInfo {[ "hangup_party" := VString "remote" ]})
                (initial options0)))) !! "hangup_party"
    = Some (VString "local").
Proof.
  assert (({[ "hangup_party" := VString "local" ]} : SignallingInfo)
            !! "hangup_party" = Some (VString "local")) as Hk
    by (vm_compute; reflexivity).
  apply (updateSignallingInfo_compose
           {[ "hangup_party" := VString "remote" ]}
           {[ "hangup_party" := VString "local" ]}
           (initial options0) "hangup_party" (VString "local") Hk).
Defined.

(** ** The media connection record *)

Lemma perform_mediaConnectionInfo (op : operation) (w : world) :
  mediaConnectionInfo (self (exec (perform op) w))
    = spread (mediaConnectionInfo (self w)) (media_merged op).
Proof.
  destruct op;
    try (cbn [media_merged]; rewrite spread_empty;
         match goal with |- context [exec ?m w] =>
           assert (keeps mediaConnectionInfo m) as Hk by keeps_tac; apply Hk
         end).
  reflexivity.
Qed.

(** [updateMediaConnectionInfo] merges: a key of the argument takes the
    argument's value, any other key keeps what it had.  Nothing but
    [updateMediaConnectionInfo] touches the record, so over any sequence of
    operations no key is deleted, and without such a call the record, and
    the copy [getMediaConnectionInfo] returns, stay as they were. *)
Theorem mediaConnectionInfo_merge (ops : list operation) (w : world)
    (object : MediaConnectionInformation) (k k' : string) (n' : number)
    (Habsent : object !! k = None)
    (Hpresent : object !! k' = Some n')
    (Hops : forallb (λ op, bool_decide (media_merged op = ∅)) ops = true) :
  let w' := exec (updateMediaConnectionInfo object) w in
  getMediaConnectionInfo (self w') !! k = getMediaConnectionInfo (self w) !! k ∧
  getMediaConnectionInfo (self w') !! k' = Some n' ∧
  getMediaConnectionInfo (self (run ops w)) = mediaConnectionInfo (self w).
Proof.
  unfold getMediaConnectionInfo. rewrite !spread_empty.
  simpl. unfold spread. split; [by apply lookup_union_r|].
  split; [by apply lookup_union_Some_l|].
  revert w. induction ops as [|op ops IH]; intros w; [done|].
  simpl in Hops. apply andb_prop in Hops as [Hop Hrest].
  apply bool_decide_eq_true in Hop.
  rewrite run_cons, IH by done.
  by rewrite perform_mediaConnectionInfo, Hop, spread_empty.
Qed.

Lemma mediaConnectionInfo_merge_witness :
  getMediaConnectionInfo
    (self (exec (updateMediaConnectionInfo {[ "stream_success" := Num 2100 ]})
             (exec (updateMediaConnectionInfo {[ "ice_connected" := Num 2000 ]})
                (initial options0)))) !! "ice_connected"
    = Some (Num 2000).
Proof.
  assert (({[ "stream_success" := Num 2100 ]} : MediaConnectionInformation)
            !! "ice_connected" = None) as Habsent
    by (vm_compute; reflexivity).
  assert (({[ "stream_success" := Num 2100 ]} : MediaConnectionInformation)
            !! "stream_success" = Some (Num 2100)) as Hpresent
    by (vm_compute; reflexivity).
  destruct (mediaConnectionInfo_merge
              [op_onConfirmed client0 (Num 1900) (Num 1901)]
              (exec (updateMediaConnectionInfo {[ "ice_connected" := Num 2000 ]})
                 (initial options0))
              {[ "stream_success" := Num 2100 ]}
              "ice_connected" "stream_success" (Num 2100)
              Habsent Hpresent eq_refl) as (Hk & _ & _).
  rewrite Hk. vm_compute. reflexivity.
Defined.

(** ** The watchdog over whole sessions *)

Lemma perform_keeps_gotInitalIce (op : operation) :
  is_onIceCandidate op = false → keeps gotInitalIce (perform op).
Proof. destruct op; intros Hop; try discriminate Hop; keeps_tac. Qed.

Lemma perform_silent_watchdog (op : operation) :
  is_onIceCandidate op = false → silent is_watchdog_timer (perform op).
Proof. destruct op; intros Hop; try discriminate Hop; silent_tac. Qed.

Lemma perform_watchdog (op : operation) (w : world) :
  (gotInitalIce (self w) = true →
   gotInitalIce (self (exec (perform op) w)) = true) ∧
  (count is_watchdog_timer (trace (exec (perform op) w))
     + bool_to_nat (negb (gotInitalIce (self (exec (perform op) w))))
   ≤ count is_watchdog_timer (trace w)
     + bool_to_nat (negb (gotInitalIce (self w))))%nat.
Proof.
  destruct (is_onIceCandidate op) eqn:Hop.
  - destruct op; try discriminate Hop. cbn [perform].
    rewrite onIceCandidate_exec.
    destruct (srflx_candidate event).
    + cbn [self trace]. rewrite count_app. simpl. split; [done|lia].
    + destruct (gotInitalIce (self w)) eqn:Harmed.
      * rewrite Harmed. split; [done|lia].
      * cbn [self trace]. rewrite count_app. simpl. split; [done|lia].
  - rewrite (perform_keeps_gotInitalIce op Hop w),
      (perform_silent_watchdog op Hop w).
    split; [done|lia].
Qed.

(** Whatever is done with a session (candidates, the other handlers, the
    setters, timers firing, in any order and number), the watchdog timer is
    scheduled at most once, and never on a session whose [gotInitalIce] flag
    is already up; no operation of the class lowers the flag. *)
Theorem watchdog_scheduled_at_most_once (ops : list operation) (w : world) :
  (gotInitalIce (self w) = true → gotInitalIce (self (run ops w)) = true) ∧
  (count is_watchdog_timer (trace (run ops w))
   ≤ count is_watchdog_timer (trace w)
     + bool_to_nat (negb (gotInitalIce (self w))))%nat.
Proof.
  revert w. induction ops as [|op ops IH]; intros w; [simpl; split; [done|lia]|].
  rewrite run_cons.
  destruct (IH (exec (perform op) w)) as [IHflag IHcount].
  destruct (perform_watchdog op w) as [Hflag Hcount].
  split; [auto|].
  destruct (gotInitalIce (self (exec (perform op) w))),
    (gotInitalIce (self w)); simpl in *; lia.
Qed.

(** The watchdog callback acts only on a session that still has a
    connection whose gathering is not complete; fired when the session or
    its connection is gone, or gathering is complete, it changes nothing
    and calls nothing.  When it acts it signals ready once and emits one
    [ice_timeout] diagnostic, without touching the session. *)
Theorem watchdog_callback_guarded (event : SessionIceCandidateEvent)
    (w : world) :
  let w' := exec (fire (IceGatheringWatchdog event)) w in
  self w' = self w ∧
  (if gathering_incomplete (self w)
   then count is_ready (trace w') = (count is_ready (trace w) + 1)%nat ∧
        count is_ice_timeout (trace w')
          = (count is_ice_timeout (trace w) + 1)%nat
   else w' = w).
Proof.
  unfold gathering_incomplete.
  destruct (session (self w)) as [[[conn|]]|] eqn:Hsess.
  - destruct (String.eqb (iceGatheringState conn) "complete") eqn:Hstate.
    + unfold fire, IceGatheringWatchdog_callback.
      rewrite exec_this_bind, Hsess. cbn [connection]. by rewrite Hstate.
    + pose proof Hstate as Hneq. apply String.eqb_neq in Hneq.
      rewrite (watchdog_fires event w _ conn Hsess eq_refl Hneq).
      cbn [self trace connection]. rewrite Hstate, !count_app. simpl.
      repeat split; lia.
  - unfold fire, IceGatheringWatchdog_callback.
    by rewrite exec_this_bind, Hsess.
  - unfold fire, IceGatheringWatchdog_callback.
    by rewrite exec_this_bind, Hsess.
Qed.

(** [onIceCandidate] signals ready exactly when the event has a candidate
    whose line contains [srflx]; in every other case it signals nothing. *)
Theorem onIceCandidate_ready_iff_srflx (cs : Client)
    (event : SessionIceCandidateEvent) (w : world) :
  (srflx_candidate event = true ↔
   ∃ c pre post, candidate event = Some c ∧
                 RTCIceCandidate.candidate c = pre +:+ "srflx" +:+ post) ∧
  count is_ready (trace (exec (onIceCandidate cs event) w))
    = (count is_ready (trace w) + bool_to_nat (srflx_candidate event))%nat.
Proof.
  split.
  - unfold srflx_candidate. destruct (candidate event) as [c|].
    + rewrite negb_true_iff, Z.eqb_neq, search_found. split.
      * intros (pre & post & Hline). by exists c, pre, post.
      * intros (c' & pre & post & [= <-] & Hline). eauto.
    + split; [done|]. by intros (c & pre & post & Hc & _).
  - rewrite onIceCandidate_exec. destruct (srflx_candidate event).
    + cbn [trace]. rewrite count_app. simpl. lia.
    + destruct (gotInitalIce (self w)); cbn [trace bool_to_nat];
        rewrite ?count_app; simpl; lia.
Qed.

(** ** The stats handle *)

Lemma perform_keeps_stats (op : operation) :
  writes_stats op = false → keeps stats (perform op).
Proof. destruct op; intros Hop; try discriminate Hop; keeps_tac. Qed.

Lemma perform_silent_stats_stop (op : operation) :
  writes_stats op = false → silent is_stats_stop (perform op).
Proof. destruct op; intros Hop; try discriminate Hop; silent_tac. Qed.

Lemma perform_silent_clearInterval (op : operation) :
  writes_stats op = false → silent is_clearInterval (perform op).
Proof. destruct op; intros Hop; try discriminate Hop; silent_tac. Qed.

Lemma clearCallStats_body_exec (st : GetRTPStats) (w : world) :
  exec (clearCallStats_body st) w =
    {| self := set_stats None (self w);
       trace := trace w ++ [clearInterval (statsTimer st);
                            clearInterval (audioTimer st); stats_stop] |}.
Proof.
  unfold clearCallStats_body. rewrite !exec_call_bind.
  unfold exec, assign. cbn. by rewrite <- !app_assoc.
Qed.

Lemma perform_stats (op : operation) (w : world) :
  (count is_stats_stop (trace (exec (perform op) w))
     + bool_to_nat (holds_stats (exec (perform op) w))
   ≤ count is_stats_stop (trace w) + bool_to_nat (holds_stats w)
     + bool_to_nat (is_setCallStats op))%nat ∧
  (count is_clearInterval (trace (exec (perform op) w))
     + 2 * count is_stats_stop (trace w)
   = count is_clearInterval (trace w)
     + 2 * count is_stats_stop (trace (exec (perform op) w)))%nat.
Proof.
  destruct (writes_stats op) eqn:Hop.
  - destruct op; try discriminate Hop.
    + cbn. destruct (holds_stats w); simpl; lia.
    + cbn [perform]. unfold clearCallStats, _clearCallStats, holds_stats.
      rewrite exec_this_bind.
      destruct (stats (self w)) as [st|] eqn:Hst.
      * rewrite clearCallStats_body_exec. cbn. rewrite !count_app. simpl. lia.
      * cbn. rewrite Hst. simpl. lia.
  - unfold holds_stats.
    rewrite (perform_keeps_stats op Hop w),
      (perform_silent_stats_stop op Hop w),
      (perform_silent_clearInterval op Hop w).
    split; lia.
Qed.

(** Over any sequence of operations the stats collector is stopped at most
    once per handle the session was given: the number of [stop] calls, plus
    one if a handle is still held, never exceeds what it was before plus the
    number of [setCallStats] calls.  Each stop comes with exactly two
    [clearInterval] calls, and nothing else clears an interval. *)
Theorem stats_released_once (ops : list operation) (w : world) :
  (count is_stats_stop (trace (run ops w))
     + bool_to_nat (holds_stats (run ops w))
   ≤ count is_stats_stop (trace w) + bool_to_nat (holds_stats w)
     + count_ops is_setCallStats ops)%nat ∧
  (count is_clearInterval (trace (run ops w))
     + 2 * count is_stats_stop (trace w)
   = count is_clearInterval (trace w)
     + 2 * count is_stats_stop (trace (run ops w)))%nat.
Proof.
  revert w. induction ops as [|op ops IH]; intros w.
  - unfold count_ops. simpl. lia.
  - rewrite run_cons.
    destruct (IH (exec (perform op) w)) as [IHstop IHclear].
    destruct (perform_stats op w) as [Hstop Hclear].
    unfold count_ops in *. simpl List.filter.
    destruct (is_setCallStats op); simpl in *; lia.
Qed.

(** ** Running a method body step by step *)

Lemma bind_assign {A : Type} (g : CallSession → CallSession)
    (k : unit → M A) (w : world) :
  (assign g ≫= k) w = k tt {| self := g (self w); trace := trace w |}.
Proof. reflexivity. Qed.

Lemma bind_call {A : Type} (e : effect) (k : unit → M A) (w : world) :
  (call e ≫= k) w = k tt {| self := self w; trace := trace w ++ [e] |}.
Proof. reflexivity. Qed.

Lemma bind_this {A : Type} (k : CallSession → M A) (w : world) :
  (this ≫= k) w = k (self w) w.
Proof. reflexivity. Qed.

Lemma bind_ret {A B : Type} (a : A) (k : A → M B) (w : world) :
  (mret a ≫= k) w = k a w.
Proof. reflexivity. Qed.

Lemma bind_throw {A B : Type} (e : exn) (k : A → M B) (w : world) :
  (throw e ≫= k) w = (Throw e, w).
Proof. reflexivity. Qed.

Lemma bind_assoc {A B D : Type} (m : M A) (f : A → M B) (g : B → M D)
    (w : world) :
  ((m ≫= f) ≫= g) w = (m ≫= λ a, f a ≫= g) w.
Proof. unfold mbind, M_bind. by destruct (m w) as [[a|e] w']. Qed.

Lemma run_assign (g : CallSession → CallSession) (w : world) :
  assign g w = (Ok tt, {| self := g (self w); trace := trace w |}).
Proof. reflexivity. Qed.

Lemma run_call (e : effect) (w : world) :
  call e w = (Ok tt, {| self := self w; trace := trace w ++ [e] |}).
Proof. reflexivity. Qed.

Lemma run_ret {A : Type} (a : A) (w : world) :
  (mret a : M A) w = (Ok a, w).
Proof. reflexivity. Qed.

Lemma run_throw {A : Type} (e : exn) (w : world) :
  @throw A e w = (Throw e, w).
Proof. reflexivity. Qed.

Ltac step :=
  first
    [ rewrite bind_assoc | rewrite bind_assign | rewrite bind_call
    | rewrite bind_this | rewrite bind_ret | rewrite bind_throw
    | rewrite run_assign | rewrite run_call | rewrite run_ret
    | rewrite run_throw
    | match goal with H : session (self _) = _ |- _ => rewrite H end
    | progress cbn [self trace callUUID sipCallID direction src dest state
                    extraHeaders session connectionStages gotInitalIce stats
                    signallingInfo mediaConnectionInfo postDialDelayEndTime
                    connection set_callUUID set_session set_state
                    set_signallingInfo set_connectionStages set_gotInitalIce
                    set_stats set_mediaConnectionInfo
                    set_postDialDelayEndTime when deref] ].

Ltac steps := repeat step.

Lemma select_app (p : effect → bool) (l1 l2 : list effect) :
  select p (l1 ++ l2) = (select p l1 ++ select p l2)%list.
Proof. apply List.filter_app. Qed.

(** ** Confirmation *)

(** [onConfirmed] returns normally exactly when what it dereferences is
    there: the session, and the connection if the client asks for the RTP
    timeout to be disabled; otherwise it throws a TypeError.  Thrown or not,
    the confirmation time is recorded.  The one-way-audio timer is scheduled
    exactly when it returns normally.  The answered notification is emitted,
    once, exactly when the RTP-timeout step passes, and it carries the call
    info of the session with state [answered]. *)
Theorem onConfirmed_outcome (cs : Client) (now1 now2 : number) (w : world) :
  let r := onConfirmed cs now1 now2 w in
  r.1 = (if confirmable cs (self w) then Ok tt else Throw TypeError) ∧
  signallingInfo (self r.2) !! "call_confirmed_time" = Some (VNumber now2) ∧
  select is_owa_timer (trace r.2)
    = (select is_owa_timer (trace w) ++
       if confirmable cs (self w)
       then [setTimeout OwaDetector (DelayMs 3000)] else [])%list ∧
  select is_onCallAnswered (trace r.2)
    = (select is_onCallAnswered (trace w) ++
       if rtp_step_passes cs (self w)
       then [emit_onCallAnswered
               (getCallInfo (set_state STATE.ANSWERED (self w)))]
       else [])%list.
Proof.
  unfold confirmable, rtp_step_passes, onConfirmed, _onConfirmed,
    addConnectionStage, setState, updateSignallingInfo, set_disableRtpTimeOut.
  destruct (options_disableRtpTimeOut cs),
    (view_playing (ringToneView cs)), (view_playing (ringBackToneView cs)),
    (session (self w)) as [[[conn|]]|] eqn:Hsess; steps;
    cbn [fst snd self trace signallingInfo];
    rewrite ?select_app; cbn [select List.filter is_owa_timer is_onCallAnswered];
    rewrite ?app_nil_r;
    (split; [reflexivity|]);
    (split; [apply lookup_union_Some_l, lookup_singleton_eq|]);
    split; reflexivity.
Qed.

(** [onConfirmed] marks the connection with [disableRtpTimeOut] exactly when
    the client's options ask for it and the connection is there, leaving its
    gathering state as it was; in every other case the session object is
    what it was. *)
Theorem onConfirmed_marks_connection (cs : Client) (now1 now2 : number)
    (w : world) :
  session (self (exec (onConfirmed cs now1 now2) w))
    = session_after_confirm cs (self w).
Proof.
  unfold exec, session_after_confirm, onConfirmed, _onConfirmed,
    addConnectionStage, setState, updateSignallingInfo, set_disableRtpTimeOut.
  destruct (options_disableRtpTimeOut cs),
    (view_playing (ringToneView cs)), (view_playing (ringBackToneView cs)),
    (session (self w)) as [[[conn|]]|] eqn:Hsess; steps;
    cbn [snd self session]; by rewrite ?Hsess.
Qed.

(** ** Hangup *)

Lemma hangup_record_lookup (evt : SessionEvent) (now : number) :
  hangup_record evt now !! "hangup_time" = Some (VNumber now) ∧
  hangup_record evt now !! "hangup_party" = Some (VString (originator evt)) ∧
  hangup_record evt now !! "hangup_reason" = Some (VString (cause evt)).
Proof. unfold hangup_record. repeat split; by simplify_map_eq. Qed.

Lemma hangup_record_other (evt : SessionEvent) (now : number) (k : string) :
  k ∉ hangup_keys → hangup_record evt now !! k = None.
Proof.
  unfold hangup_keys, hangup_record. intros Hk.
  rewrite !lookup_insert_ne by set_solver.
  apply lookup_singleton_ne. set_solver.
Qed.

(** After [onFailed] and after [onEnded], whether the handler returned or
    threw, the signalling record holds the hangup time read after the stage
    was stamped, and the originator and cause of the event as hangup party
    and reason; every other key is as it was. *)
Theorem hangup_recorded (cs : Client) (evt : SessionEvent)
    (now1 now2 : number) (w : world) (k : string)
    (Hk : k ∉ hangup_keys) :
  let failed := signallingInfo (self (exec (onFailed cs evt now1 now2) w)) in
  let ended := signallingInfo (self (exec (onEnded cs evt now1 now2) w)) in
  failed !! "hangup_time" = Some (VNumber now2) ∧
  failed !! "hangup_party" = Some (VString (originator evt)) ∧
  failed !! "hangup_reason" = Some (VString (cause evt)) ∧
  failed !! k = signallingInfo (self w) !! k ∧
  ended !! "hangup_time" = Some (VNumber now2) ∧
  ended !! "hangup_party" = Some (VString (originator evt)) ∧
  ended !! "hangup_reason" = Some (VString (cause evt)) ∧
  ended !! k = signallingInfo (self w) !! k.
Proof.
  intros failed ended. subst failed ended.
  pose proof (perform_signallingInfo (op_onFailed cs evt now1 now2) w) as Hf.
  pose proof (perform_signallingInfo (op_onEnded cs evt now1 now2) w) as He.
  cbn [perform signalling_merged] in Hf, He. rewrite Hf, He. unfold spread.
  destruct (hangup_record_lookup evt now2) as (Htime & Hparty & Hreason).
  pose proof (hangup_record_other evt now2 k Hk) as Hother.
  repeat split;
    first [ by apply lookup_union_Some_l | by apply lookup_union_r ].
Qed.

Lemma hangup_recorded_witness :
  signallingInfo
    (self (exec (onEnded client0 hangup0 (Num 5000) (Num 5001))
             (initial options0))) !! "call_initiation_time"
    = signallingInfo (self (initial options0)) !! "call_initiation_time".
Proof.
  assert ("call_initiation_time" ∉ hangup_keys) as Hk by compute_done.
  destruct (hangup_recorded client0 hangup0 (Num 5000) (Num 5001)
              (initial options0) "call_initiation_time" Hk)
    as (_ & _ & _ & _ & _ & _ & _ & Hkept).
  exact Hkept.
Defined.


(** [onFailed] never throws and never assigns the state; besides the stage
    and the hangup record it makes exactly three calls, in this order: the
    media-error classification of the event, the hangup clearance of this
    session, and the stop of the volume streaming. *)
Theorem onFailed_outcome (cs : Client) (evt : SessionEvent)
    (now1 now2 : number) (w : world) :
  let r := onFailed cs evt now1 now2 w in
  r.1 = Ok tt ∧
  state (self r.2) = state (self w) ∧
  trace r.2 = (trace w ++ [handleMediaError evt; hangupClearance ThisSession;
                           stopVolumeDataStreaming])%list.
Proof.
  unfold onFailed, _onFailed, addConnectionStage, updateSignallingInfo.
  steps. cbn. by rewrite <- !app_assoc.
Qed.

(** ** Failure routing *)


(** ** The signalling snapshot *)

(** The snapshot [getSignallingInfo] returns agrees with the signalling
    record on every key but [post_dial_delay], which it always carries and
    which is always the derived value, also over a stored one.  While no end
    time is stamped, the derived value is [0 - call_initiation_time]: the
    negated initiation time, and [NaN] when the record has no initiation
    time. *)
Theorem getSignallingInfo_snapshot (s : CallSession) (snap : SignallingInfo)
    (k : string) (t : Z)
    (Hsnap : getSignallingInfo s = Some snap)
    (Hk : k ≠ "post_dial_delay") :
  snap !! k = signallingInfo s !! k ∧
  snap !! "post_dial_delay" = VNumber <$> post_dial_delay s ∧
  (postDialDelayEndTime_truthy s = false →
   signallingInfo s !! "call_initiation_time" = None →
   snap !! "post_dial_delay" = Some (VNumber NaN)) ∧
  (postDialDelayEndTime_truthy s = false →
   signallingInfo s !! "call_initiation_time" = Some (VNumber (Num t)) →
   snap !! "post_dial_delay" = Some (VNumber (Num (- t)))).
Proof.
  unfold getSignallingInfo in Hsnap.
  destruct (post_dial_delay s) as [d|] eqn:Hd; [|done].
  simpl in Hsnap. injection Hsnap as <-. unfold spread.
  assert ((({[ "post_dial_delay" := VNumber d ]} : SignallingInfo)
             ∪ signallingInfo s) !! "post_dial_delay" = Some (VNumber d))
    as Hderived by apply lookup_union_Some_l, lookup_singleton_eq.
  split; [by apply lookup_union_r, lookup_singleton_ne|].
  split; [done|]. rewrite Hderived. split.
  - intros Hunset Hnone. rewrite post_dial_delay_unstamped in Hd by done.
    unfold documented_post_dial_delay, postDialDelayEndTime_truthy, get in *.
    rewrite Hnone in Hd. simpl in Hd.
    destruct (postDialDelayEndTime s) as [e|]; [rewrite Hunset in Hd|];
      by injection Hd as <-.
  - intros Hunset Hsome. rewrite post_dial_delay_unstamped in Hd by done.
    unfold documented_post_dial_delay, postDialDelayEndTime_truthy, get in *.
    rewrite Hsome in Hd. simpl in Hd.
    destruct (postDialDelayEndTime s) as [e|]; [rewrite Hunset in Hd|];
      by injection Hd as <-.
Qed.

Lemma getSignallingInfo_snapshot_witness :
  getSignallingInfo (self (initial options0))
    ≫= (.!! "post_dial_delay") = Some (VNumber (Num (-1000))).
Proof.
  destruct (getSignallingInfo (self (initial options0))) as [snap|] eqn:Hsnap;
    [|discriminate Hsnap].
  assert ("call_initiation_time" ≠ "post_dial_delay") as Hk by discriminate.
  destruct (getSignallingInfo_snapshot (self (initial options0)) snap
              "call_initiation_time" 1000 Hsnap Hk) as (_ & _ & _ & Hneg).
  simpl. apply Hneg; vm_compute; reflexivity.
Defined.

(** ** A new session *)

(** A session as the constructor leaves it: in state [initialized], which
    is not terminal, with no stage, the watchdog unarmed, no stats handle
    and no end time.  Its identifier is [null] exactly when the options give
    none or an empty one.  It records an initiation time exactly when the
    options give a truthy one (a [0] is dropped), and its first snapshot
    then reports the negated initiation time as the delay, and [NaN]
    without one. *)
Theorem new_CallSession_initial (options : CallSessionOptions) :
  let s := new_CallSession options in
  let given :=
    match opt_call_initiation_time options with
    | Some t => if number_truthy t then Some t else None
    | None => None
    end in
  state s = STATE.INITIALIZED ∧ terminal (state s) = false ∧
  connectionStages s = [] ∧ gotInitalIce s = false ∧ stats s = None ∧
  postDialDelayEndTime s = None ∧
  (callUUID s = None ↔
   opt_callUUID options = None ∨ opt_callUUID options = Some "") ∧
  signallingInfo s !! "call_initiation_time" = VNumber <$> given ∧
  getSignallingInfo s ≫= (.!! "post_dial_delay")
    = Some (VNumber (sub (Num 0) (default NaN given))).
Proof.
  intros s given. subst s given. repeat split; try done.
  - cbn. destruct (opt_callUUID options) as [[|c u]|]; intuition congruence.
  - cbn. destruct (opt_callUUID options) as [[|c u]|]; intuition congruence.
  - cbn. destruct (opt_call_initiation_time options) as [t|]; [|done].
    destruct (number_truthy t); [|done]. apply lookup_singleton_eq.
  - unfold getSignallingInfo, post_dial_delay, get. cbn.
    destruct (opt_call_initiation_time options) as [t|].
    + destruct (number_truthy t).
      * rewrite lookup_singleton_eq. cbn. unfold spread.
        by rewrite (lookup_union_Some_l _ _ _ _ (lookup_singleton_eq _ _)).
      * rewrite lookup_empty. cbn. unfold spread.
        by rewrite (lookup_union_Some_l _ _ _ _ (lookup_singleton_eq _ _)).
    + rewrite lookup_empty. cbn. unfold spread.
      by rewrite (lookup_union_Some_l _ _ _ _ (lookup_singleton_eq _ _)).
Qed.

(** * The HTTP helpers *)

(** ** The user name sent to the stats API *)

Lemma lower_colon (c : Ascii.ascii) : c = Http.colon → Http.lower c = Http.colon.
Proof. by intros ->. Qed.













(** ** How the helpers settle their promise *)

(** [validateCallStats], by outcome of the request: a failed [fetch]
    rejects with the reason of the failure, logged as an error; a response
    that is not ok rejects with "Incorrect response code"; an ok response
    with an empty body rejects with "Call insights is not enabled"; an ok
    response whose body parses resolves with the parsed value.  An ok
    response whose body does not parse, or whose body cannot be read,
    leaves the promise pending: nothing reacts to the inner promise. *)
Theorem validateCallStats_settles {V : Type} (parse : string → option V)
    (r : Http.rejection) (t : Http.outcome string)
    (good bad : string) (v : V)
    (Hgood : string_truthy good = true) (Hparsed : parse good = Some v)
    (Hbad : string_truthy bad = true) (Hthrows : parse bad = None) :
  let ok_with body :=
    Http.fulfilled {| Http.ok := true; Http.text := body |} in
  Http.validateCallStats parse (Http.rejected r)
    = {| Http.settled_as := Http.Rejected r;
         Http.logs := [Http.error "Error in getting token from call stats"
                         (Some r)] |} ∧
  Http.validateCallStats parse
      (Http.fulfilled {| Http.ok := false; Http.text := t |})
    = {| Http.settled_as := Http.Rejected (Http.Message "Incorrect response code");
         Http.logs := [] |} ∧
  Http.validateCallStats parse (ok_with (Http.fulfilled ""))
    = {| Http.settled_as :=
           Http.Rejected (Http.Message "Call insights is not enabled");
         Http.logs := [Http.info "Call insights is not enabled"] |} ∧
  Http.validateCallStats parse (ok_with (Http.fulfilled good))
    = {| Http.settled_as := Http.Resolved v; Http.logs := [] |} ∧
  Http.validateCallStats parse (ok_with (Http.fulfilled bad))
    = {| Http.settled_as := Http.Pending; Http.logs := [] |} ∧
  Http.validateCallStats parse (ok_with (Http.rejected r))
    = {| Http.settled_as := Http.Pending; Http.logs := [] |}.
Proof.
  intros ok_with. subst ok_with.
  unfold Http.validateCallStats, Http.settle, Http.validateCallStats_response,
    Http.validateCallStats_body, Http.JSON_parse.
  cbn. rewrite Hgood, Hbad, Hparsed, Hthrows. by cbn.
Qed.

Lemma validateCallStats_settles_witness :
  Http.validateCallStats parse_object
      (Http.fulfilled {| Http.ok := true; Http.text := Http.fulfilled "<html>" |})
    = {| Http.settled_as := Http.Pending; Http.logs := [] |}.
Proof.
  apply (validateCallStats_settles parse_object (Http.Failure "offline")
           (Http.fulfilled "") "{}" "<html>" "{}").
  - reflexivity.
  - reflexivity.
  - reflexivity.
  - reflexivity.
Defined.

(** [getPreSignedS3URL] settles its promise on every outcome of the
    request.  It resolves, logging nothing, exactly on an ok response with a
    non-empty body that parses, with the parsed value.  In every other case
    it rejects with one of its four messages and logs exactly one error; a
    body that does not parse gives "Did not get s3 url to upload". *)
Theorem getPreSignedS3URL_always_settles {V : Type}
    (parse : string → option V) (fetched : Http.outcome Http.Response)
    (bad : string)
    (Hbad : string_truthy bad = true) (Hthrows : parse bad = None) :
  let st := Http.getPreSignedS3URL parse fetched in
  match Http.settled_as st with
  | Http.Pending => False
  | Http.Resolved v =>
      Http.logs st = [] ∧
      ∃ body,
        fetched = Http.fulfilled
                    {| Http.ok := true; Http.text := Http.fulfilled body |} ∧
        string_truthy body = true ∧ parse body = Some v
  | Http.Rejected reason =>
      ∃ m logged detail,
        reason = Http.Message m ∧ m ∈ Http.rejection_messages ∧
        Http.logs st = [Http.error logged detail]
  end ∧
  (∀ body v, string_truthy body = true → parse body = Some v →
     Http.settled_as
       (Http.getPreSignedS3URL parse
          (Http.fulfilled
             {| Http.ok := true; Http.text := Http.fulfilled body |}))
     = Http.Resolved v) ∧
  Http.settled_as
    (Http.getPreSignedS3URL parse
       (Http.fulfilled {| Http.ok := true; Http.text := Http.fulfilled bad |}))
    = Http.Rejected (Http.Message "Did not get s3 url to upload").
Proof.
  intros st. subst st.
  unfold Http.getPreSignedS3URL, Http.settle, Http.getPreSignedS3URL_response,
    Http.getPreSignedS3URL_body, Http.JSON_parse, Http.rejection_messages.
  split; [|split].
  - destruct fetched as [[[] [body|r]]|r]; cbn.
    + destruct (string_truthy body) eqn:Hbody; cbn.
      * destruct (parse body) as [v|] eqn:Hparse; cbn.
        -- split; [done|]. by exists body.
        -- eexists _, _, _. split; [done|]. split; [|done]. set_solver.
      * eexists _, _, _. split; [done|]. split; [|done]. set_solver.
    + eexists _, _, _. split; [done|]. split; [|done]. set_solver.
    + eexists _, _, _. split; [done|]. split; [|done]. set_solver.
    + eexists _, _, _. split; [done|]. split; [|done]. set_solver.
    + eexists _, _, _. split; [done|]. split; [|done]. set_solver.
  - intros body v Hbody Hparse. cbn. rewrite Hbody. cbn. by rewrite Hparse.
  - cbn. rewrite Hbad. cbn. by rewrite Hthrows.
Qed.

Lemma getPreSignedS3URL_always_settles_witness :
  Http.settled_as
    (Http.getPreSignedS3URL parse_object
       (Http.fulfilled
          {| Http.ok := true; Http.text := Http.fulfilled "<html>" |}))
    = Http.Rejected (Http.Message "Did not get s3 url to upload").
Proof.
  apply (getPreSignedS3URL_always_settles parse_object
           (Http.rejected (Http.Failure "offline")) "<html>").
  - reflexivity.
  - reflexivity.
Defined.

(** [uploadConsoleLogsToBucket]: with a valid pre-signed URL, any response
    to the PUT, ok or not, resolves the promise with "done", and a failed
    request rejects it with "Log file was not uploaded to server"; either
    way one log entry is written.  With an invalid URL the promise is
    rejected with the exception of [new URL], whatever the request would
    have done, and nothing is logged.  The file ends with the console logs,
    preceded by the serialised feedback when there is one. *)
Theorem uploadConsoleLogsToBucket_outcome {F : Type}
    (valid_url : string → bool) (data : string)
    (response : Http.Response) (r : Http.rejection)
    (fetched : Http.outcome Http.Response)
    (stringify : F → string) (feedback : option F) (f : F)
    (content : string) :
  (if valid_url data then
     Http.uploadConsoleLogsToBucket valid_url data (Http.fulfilled response)
       = {| Http.settled_as := Http.Resolved "done";
            Http.logs := [Http.info "Log file uploaded to server"] |} ∧
     Http.uploadConsoleLogsToBucket valid_url data (Http.rejected r)
       = {| Http.settled_as :=
              Http.Rejected (Http.Message "Log file was not uploaded to server");
            Http.logs := [Http.error "Log file was not uploaded to server"
                            (Some r)] |}
   else
     Http.uploadConsoleLogsToBucket valid_url data fetched
       = {| Http.settled_as := Http.Rejected (Http.Exception Http.InvalidURL);
            Http.logs := [] |}) ∧
  last (Http.fileContent stringify feedback content) = Some content ∧
  Http.fileContent stringify None content = [content] ∧
  Http.fileContent stringify (Some f) content
    = [stringify f +:+ " " +:+ Http.newline; content].
Proof.
  unfold Http.uploadConsoleLogsToBucket, Http.fileContent.
  split; [by destruct (valid_url data)|].
  split; [by destruct feedback|done].
Qed.

(** * Calls over whole sessions *)

Lemma run_count_eq (p : effect → bool) (q : operation → bool)
    (ops : list operation) (w : world) :
  (∀ op w, count p (trace (exec (perform op) w))
           = (count p (trace w) + bool_to_nat (q op))%nat) →
  count p (trace (run ops w)) = (count p (trace w) + count_ops q ops)%nat.
Proof.
  intros Hop. revert w. induction ops as [|op ops IH]; intros w.
  - unfold count_ops. simpl. lia.
  - rewrite run_cons, IH, Hop. unfold count_ops. simpl List.filter.
    destruct (q op); simpl; lia.
Qed.

Lemma run_count_le (p : effect → bool) (q : operation → bool)
    (ops : list operation) (w : world) :
  (∀ op w, (count p (trace (exec (perform op) w))
            ≤ count p (trace w) + bool_to_nat (q op))%nat) →
  (count p (trace (run ops w)) ≤ count p (trace w) + count_ops q ops)%nat.
Proof.
  intros Hop. revert w. induction ops as [|op ops IH]; intros w.
  - unfold count_ops. simpl. lia.
  - rewrite run_cons. etrans; [apply IH|]. specialize (Hop op w).
    unfold count_ops. simpl List.filter. destruct (q op); simpl in *; lia.
Qed.

Ltac by_silence p :=
  match goal with
  | |- context [exec ?m ?w] =>
      let Hs := fresh "Hs" in
      assert (silent p m) as Hs by silent_tac; rewrite (Hs w); simpl; lia
  end.





Lemma perform_onCallAnswered (op : operation) (w : world) :
  (count is_onCallAnswered (trace (exec (perform op) w))
   ≤ count is_onCallAnswered (trace w) + bool_to_nat (is_onConfirmed op))%nat.
Proof.
  destruct op; cbn [is_onConfirmed]; try by_silence is_onCallAnswered.
  cbn [perform].
  unfold exec, onConfirmed, _onConfirmed, addConnectionStage, setState,
    updateSignallingInfo, set_disableRtpTimeOut.
  destruct (options_disableRtpTimeOut cs),
    (view_playing (ringToneView cs)), (view_playing (ringBackToneView cs)),
    (session (self w)) as [[[conn|]]|] eqn:Hsess; steps; cbn [snd trace];
    rewrite ?count_app; simpl; lia.
Qed.

Lemma perform_onCallTerminated (op : operation) (w : world) :
  (count is_onCallTerminated (trace (exec (perform op) w))
   ≤ count is_onCallTerminated (trace w) + bool_to_nat (is_onEnded op))%nat.
Proof.
  destruct op; cbn [is_onEnded]; try by_silence is_onCallTerminated.
  cbn [perform].
  unfold exec, onEnded, _onEnded, addConnectionStage, setState,
    updateSignallingInfo.
  destruct (callStats cs) as [engine|],
    (_currentSession cs) as [[|other]|],
    (session (self w)) as [sess|] eqn:Hsess; steps; cbn [snd trace];
    rewrite ?count_app; simpl; lia.
Qed.

Lemma perform_answered (op : operation) (w : world) :
  count is_answered (trace (exec (perform op) w))
    = (count is_answered (trace w) + bool_to_nat (is_settle op))%nat.
Proof.
  destruct op; cbn [is_settle]; try by_silence is_answered.
  cbn [perform]. unfold exec, AudioDevicesInfo_reaction.
  destruct outcome; simpl; rewrite count_app; simpl; lia.
Qed.

(** Over any sequence of operations the outward notifications come from
    their own handlers only: at most one call-answered notification per
    [onConfirmed], at most one call-terminated notification per [onEnded],
    and exactly one answered diagnostic per settled device-information
    query. *)
Theorem notifications_from_their_handlers (ops : list operation) (w : world) :
  (count is_onCallAnswered (trace (run ops w))
   ≤ count is_onCallAnswered (trace w) + count_ops is_onConfirmed ops)%nat ∧
  (count is_onCallTerminated (trace (run ops w))
   ≤ count is_onCallTerminated (trace w) + count_ops is_onEnded ops)%nat ∧
  count is_answered (trace (run ops w))
    = (count is_answered (trace w) + count_ops is_settle ops)%nat.
Proof.
  split; [|split].
  - apply run_count_le, perform_onCallAnswered.
  - apply run_count_le, perform_onCallTerminated.
  - apply run_count_eq, perform_answered.
Qed.

(** ** The state after a sequence *)

Lemma perform_state_written (op : operation) (w : world) :
  state (self (exec (perform op) w)) = state_written op (state (self w)).
Proof.
  destruct (writes_state op) eqn:Hop.
  - destruct op; try discriminate Hop; cbn [perform state_written].
    + reflexivity.
    + unfold onConfirmed, _onConfirmed, addConnectionStage, setState,
        updateSignallingInfo.
      by rest_keeps state.
    + unfold onEnded, _onEnded, addConnectionStage, setState,
        updateSignallingInfo.
      by rest_keeps state.
  - rewrite (perform_keeps_state op Hop w). by destruct op.
Qed.

(** The state after any sequence of operations is what the last
    state-writing operation in it stored ([setState] its argument,
    [onConfirmed] [answered], [onEnded] [ended]), whatever came before it and
    whatever handlers, timers or reactions ran after it. *)
Theorem state_follows_last_writer (before after : list operation)
    (op : operation) (w : world)
    (Hop : writes_state op = true)
    (Hafter : forallb (λ op, negb (writes_state op)) after = true) :
  state (self (run (before ++ op :: after) w))
    = state_written op (state (self w)).
Proof.
  rewrite run_app, run_cons.
  rewrite (run_keeps state writes_state after); [|apply perform_keeps_state|done].
  rewrite perform_state_written. by destruct op.
Qed.

Lemma state_follows_last_writer_witness :
  state (self (run ([op_onConfirmed client0 (Num 2000) (Num 2001)] ++
                    op_onEnded client0 hangup0 (Num 5000) (Num 5001) ::
                    [op_onIceCandidate client0 host_event;
                     op_fire (IceGatheringWatchdog host_event);
                     op_clearCallStats])
                 (initial options0)))
    = STATE.ENDED.
Proof.
  apply (state_follows_last_writer
           [op_onConfirmed client0 (Num 2000) (Num 2001)]
           [op_onIceCandidate client0 host_event;
            op_fire (IceGatheringWatchdog host_event);
            op_clearCallStats]
           (op_onEnded client0 hangup0 (Num 5000) (Num 5001))
           (initial options0)).
  - reflexivity.
  - reflexivity.
Defined.
